(** * ThroughTheNoise: the paginated story feeds of scripts/script.js

    A shallow embedding of the fetch pipeline of [scripts/script.js]: the API
    client ([fetchFromAPI], [fetchItemDetails]), the chunked fetcher
    ([fetchItemsWithConcurrency]) and the two pagination controllers
    ([loadMoreBestNews], [loadMoreLatestNews]) with their validity checks,
    render functions and load-button updates.  The last part of the
    definitions adds the rest of the script: the time labels
    ([formatRelativeTime], [formatRelativeTimeFallback]), [extractDomain],
    and [init] with the click handlers.

    Conventions.
    - Array indices, lengths and the page counters are [nat]; item ids, scores
      and timestamps are [Z]; strings are [string].
    - A JavaScript exception is the result [Throw]; side effects that survive
      an exception (DOM appends, the loading flag) stay in the state that is
      returned next to it.
    - The three numeric constants of the script are the fields of a record
      [Constants]; [script_js] holds the values written in the source. *)

From Stdlib Require Import List ZArith Arith Lia String Ascii Bool Permutation.
From Stdlib Require Import DecimalString.
Import ListNotations.

Set Implicit Arguments.

Open Scope string_scope.
Open Scope list_scope.
Open Scope nat_scope.

(** ** Constants *)

Record Constants := {
  ITEMS_PER_PAGE : nat;
  MAX_CONCURRENT_REQUESTS : nat;
  MIN_SCORE_LATEST : Z
}.

(** [const ITEMS_PER_PAGE = 6; const MAX_CONCURRENT_REQUESTS = 3;
    const MIN_SCORE_LATEST = 0;] *)
Definition script_js : Constants :=
  {| ITEMS_PER_PAGE := 6; MAX_CONCURRENT_REQUESTS := 3; MIN_SCORE_LATEST := 0%Z |}.

(** [const IMAGES = [...]] *)
Definition IMAGES : list string :=
  [ "../assets/img-black.png"; "../assets/img-green.png"; "../assets/img-white.png" ].

(** The URLs the script requests: the two list endpoints and [ITEM_API(id)]. *)
Inductive Endpoint :=
| BEST_NEWS_API
| LATEST_NEWS_API
| ITEM_API (id : Z).

(** ** Results of fallible code *)

Inductive Exn :=
| NetworkError            (* fetch() rejected *)
| HttpError (status : nat) (* the [throw new Error(...)] after [!res.ok] *)
| SyntaxError             (* res.json() rejected *)
| TypeError.              (* a method call on undefined *)

Inductive Res (A : Type) :=
| Ok (a : A)
| Throw (e : Exn)
| OutOfFuel.              (* the loop did not finish within its fuel *)

Arguments Ok {A} a.
Arguments Throw {A} e.
Arguments OutOfFuel {A}.

Definition res_bind {A B} (r : Res A) (k : A -> Res B) : Res B :=
  match r with
  | Ok a => k a
  | Throw e => Throw e
  | OutOfFuel => OutOfFuel
  end.

(** [try { body } catch (error) { handler }] *)
Definition try_catch {A} (body : Res A) (handler : Exn -> Res A) : Res A :=
  match body with
  | Throw e => handler e
  | other => other
  end.

(** ** Remote items *)

Record Item := {
  item_id : Z;
  item_type : string;
  item_title : option string;
  item_url : option string;
  item_time : option Z;
  item_score : option Z
}.

(** ** The transport

    What [fetch(url)] does for one request: it rejects, or it yields a response
    with a status whose body either decodes ([Some]) or not ([None]).  The item
    endpoint decodes to an object or to JSON [null], hence [option Item]. *)

Inductive Response (A : Type) :=
| Rejected
| Reply (status : nat) (body : option A).

Arguments Rejected {A}.
Arguments Reply {A} status body.

Record Net := {
  listReply : Endpoint -> Response (list Z);
  itemReply : Z -> Response (option Item)
}.

(** [res.ok]: the status is in the range 200-299. *)
Definition res_ok (status : nat) : bool := (200 <=? status) && (status <=? 299).

(** An async call: the requests it issues and what its promise settles to. *)
Record Promise (A : Type) := {
  issued : list Endpoint;
  outcome : Res A
}.

Definition await_fetch {A} (r : Response A) : Res (nat * option A) :=
  match r with
  | Rejected => Throw NetworkError
  | Reply status body => Ok (status, body)
  end.

Definition await_json {A} (body : option A) : Res A :=
  match body with
  | Some v => Ok v
  | None => Throw SyntaxError
  end.

(** The [try] block shared by both client functions:
    [const res = await fetch(url); if (!res.ok) throw ...; return await res.json();] *)
Definition request_body {A} (r : Response A) : Res A :=
  res_bind (await_fetch r) (fun res =>
    if negb (res_ok (fst res)) then Throw (HttpError (fst res))
    else await_json (snd res)).

(** [async function fetchFromAPI(url)] *)
Definition fetchFromAPI (net : Net) (url : Endpoint) : Promise (list Z) :=
  {| issued := [url];
     outcome := try_catch (request_body (listReply net url)) (fun _ => Ok []) |}.

(** [async function fetchItemDetails(id)] *)
Definition fetchItemDetails (net : Net) (id : Z) : Promise (option Item) :=
  {| issued := [ITEM_API id];
     outcome := try_catch (request_body (itemReply net id)) (fun _ => Ok None) |}.

(** A request failed: transport failure, non-success status or undecodable body. *)
Definition failed {A} (r : Response A) : Prop :=
  match r with
  | Rejected => True
  | Reply status body => res_ok status = false \/ body = None
  end.

(** ** Utility functions *)

(** [function getImageByID(id)]: [IMAGES[id % IMAGES.length]]; the remainder
    has the sign of [id], and a negative index reads [undefined]. *)
Definition getImageByID (id : Z) : option string :=
  let hash := Z.rem id (Z.of_nat (List.length IMAGES)) in
  if (hash <? 0)%Z then None else nth_error IMAGES (Z.to_nat hash).

Definition double_quote : ascii := ascii_of_nat 34.

(** The replacement table [map] of [escapeHTML]; other characters are kept. *)
Definition escapeChar (c : ascii) : string :=
  if Ascii.eqb c "&" then "&amp;"
  else if Ascii.eqb c "<" then "&lt;"
  else if Ascii.eqb c ">" then "&gt;"
  else if Ascii.eqb c double_quote then "&quot;"
  else if Ascii.eqb c "'" then "&#039;"
  else String c EmptyString.

Fixpoint replace_special (text : string) : string :=
  match text with
  | EmptyString => EmptyString
  | String c rest => String.append (escapeChar c) (replace_special rest)
  end.

(** [function escapeHTML(text)]: [text.replace(...)]; on an absent [text] the
    method call raises a TypeError. *)
Definition escapeHTML (text : option string) : Res string :=
  match text with
  | Some s => Ok (replace_special s)
  | None => Throw TypeError
  end.

(** ** Events, worlds and the monad of the async code

    The fetcher runs over a state [S] owned by its callbacks and a log of what
    it did: requests issued and settled, items handed to [onItemFetched], and
    the call of [onBatchComplete]. *)

Inductive Event :=
| EvFetch (url : Endpoint)
| EvSettled (url : Endpoint)
| EvItem (item : Item)
| EvDone (validItemsCount : nat).

Record World (S : Type) := {
  user : S;
  events : list Event
}.

Definition M (S A : Type) : Type := World S -> Res A * World S.

Definition ret {S A} (a : A) : M S A := fun w => (Ok a, w).

Definition bind {S A B} (m : M S A) (k : A -> M S B) : M S B :=
  fun w =>
    match m w with
    | (Ok a, w') => k a w'
    | (Throw e, w') => (Throw e, w')
    | (OutOfFuel, w') => (OutOfFuel, w')
    end.

Notation "x <- m ;; k" := (bind m (fun x => k))
  (at level 61, m at next level, right associativity).

Definition log {S} (evs : list Event) : M S unit :=
  fun w => (Ok tt, {| user := user w; events := events w ++ evs |}).

(** Run a callback, which sees the callbacks' state only. *)
Definition call {S A} (f : S -> Res A * S) : M S A :=
  fun w => let '(r, s) := f (user w) in (r, {| user := s; events := events w |}).

(** ** The chunked fetcher *)

(** [l.slice(i, j)] for [0 <= i]: indices past the end are clamped. *)
Definition slice {A} (l : list A) (i j : nat) : list A := firstn (j - i) (skipn i l).

(** The order in which the requests of one chunk settle: the ids sorted by
    the latency of their request, ties in chunk order. *)
Fixpoint insert_by (latency : Z -> nat) (id : Z) (l : list Z) : list Z :=
  match l with
  | [] => [id]
  | y :: rest => if latency id <=? latency y then id :: l else y :: insert_by latency id rest
  end.

Definition arrival (latency : Z -> nat) (batchIds : list Z) : list Z :=
  fold_right (insert_by latency) [] batchIds.

(** What one chunk adds to the log while it is awaited. *)
Definition chunk_log (latency : Z -> nat) (batchIds : list Z) : list Event :=
  map (fun id => EvFetch (ITEM_API id)) batchIds
  ++ map (fun id => EvSettled (ITEM_API id)) (arrival latency batchIds).

(** [Promise.all]: the values in the order of the promises, or the first rejection. *)
Fixpoint promise_all {A} (ps : list (Promise A)) : Res (list A) :=
  match ps with
  | [] => Ok []
  | p :: rest =>
      res_bind (outcome p) (fun v =>
      res_bind (promise_all rest) (fun vs => Ok (v :: vs)))
  end.

Section Fetcher.
Variable K : nat.                (* MAX_CONCURRENT_REQUESTS *)
Variable net : Net.
Variable latency : Z -> nat.
Variable St : Type.
Variable ids : list Z.
Variable onItemFetched : Item -> St -> Res bool * St.
Variable onBatchComplete : nat -> St -> Res unit * St.

(** [const batchPromises = batchIds.map(id => fetchItemDetails(id));
    const batchItems = await Promise.all(batchPromises);]
    every request of the chunk is issued by the [map], then all settle. *)
Definition awaitBatch (batchIds : list Z) : M St (list (option Item)) :=
  let batchPromises := map (fetchItemDetails net) batchIds in
  _ <- log (map EvFetch (flat_map (@issued _) batchPromises)) ;;
  _ <- log (map (fun id => EvSettled (ITEM_API id)) (arrival latency batchIds)) ;;
  fun w => (promise_all batchPromises, w).

(** [batchItems.forEach(item => { if (item && onItemFetched(item)) validItemsCount++; })] *)
Fixpoint forEach (batchItems : list (option Item)) (validItemsCount : nat) : M St nat :=
  match batchItems with
  | [] => ret validItemsCount
  | None :: rest => forEach rest validItemsCount
  | Some item :: rest =>
      _ <- log [EvItem item] ;;
      valid <- call (onItemFetched item) ;;
      forEach rest (if valid : bool then validItemsCount + 1 else validItemsCount)
  end.

(** [for (let i = 0; i < ids.length; i += MAX_CONCURRENT_REQUESTS) { ... }] *)
Fixpoint fetchLoop (fuel i validItemsCount : nat) : M St nat :=
  match fuel with
  | O => fun w => (OutOfFuel, w)
  | S fuel' =>
      if i <? List.length ids then
        batchItems <- awaitBatch (slice ids i (i + K)) ;;
        validItemsCount' <- forEach batchItems validItemsCount ;;
        fetchLoop fuel' (i + K) validItemsCount'
      else ret validItemsCount
  end.

(** [async function fetchItemsWithConcurrency(ids, onItemFetched, onBatchComplete)] *)
Definition fetchItemsWithConcurrency : M St unit :=
  validItemsCount <- fetchLoop (S (List.length ids)) 0 0 ;;
  _ <- log [EvDone validItemsCount] ;;
  call (onBatchComplete validItemsCount).
End Fetcher.

(** ** The two feeds and their controllers *)

Inductive Feed := Best | Latest.

(** [BEST_NEWS_API] is [beststories.json], [LATEST_NEWS_API] is [topstories.json]. *)
Definition feed_api (feed : Feed) : Endpoint :=
  match feed with
  | Best => BEST_NEWS_API
  | Latest => LATEST_NEWS_API
  end.

(** [loadBtn.style.display] *)
Inductive Display := display_block | display_none.

(** What a render function appends to its container.  The date label is
    computed from [time] and the domain label from [href] by
    [formatRelativeTime] and [extractDomain], which catch their own errors and
    always return a string; the nodes keep the values they are computed from. *)
Inductive Node :=
| GalleryLink (href : option string) (image : option string) (title : string) (time : option Z)
| ListEntry (title : string) (time : option Z) (href : option string).

(** The globals of one feed ([bestNewsIds], [bestNewsPage], [bestNewsLoading],
    or the [latestNews...] ones), its container ([.gallery] or [.list]) and
    the display style of its load button. *)
Record Controller := {
  newsIds : list Z;
  newsPage : nat;
  newsLoading : bool;
  container : list Node;
  loadBtn : Display
}.

Definition set_loading (b : bool) (c : Controller) : Controller :=
  {| newsIds := newsIds c; newsPage := newsPage c; newsLoading := b;
     container := container c; loadBtn := loadBtn c |}.

Definition set_page (p : nat) (c : Controller) : Controller :=
  {| newsIds := newsIds c; newsPage := p; newsLoading := newsLoading c;
     container := container c; loadBtn := loadBtn c |}.

Definition set_ids (ids : list Z) (c : Controller) : Controller :=
  {| newsIds := ids; newsPage := newsPage c; newsLoading := newsLoading c;
     container := container c; loadBtn := loadBtn c |}.

Definition set_display (d : Display) (c : Controller) : Controller :=
  {| newsIds := newsIds c; newsPage := newsPage c; newsLoading := newsLoading c;
     container := container c; loadBtn := d |}.

Definition appendChild (n : Node) (c : Controller) : Controller :=
  {| newsIds := newsIds c; newsPage := newsPage c; newsLoading := newsLoading c;
     container := container c ++ [n]; loadBtn := loadBtn c |}.

(** The node built by [renderBestNewsItem] (a link in the gallery) or by
    [renderLatestNewsItem] (an entry of the list) around the escaped title. *)
Definition node_of (feed : Feed) (item : Item) (title : string) : Node :=
  match feed with
  | Best => GalleryLink (item_url item) (getImageByID (item_id item)) title (item_time item)
  | Latest => ListEntry title (item_time item) (item_url item)
  end.

(** [function renderBestNewsItem(item)] and [function renderLatestNewsItem(item)]:
    the markup calls [escapeHTML(item.title)] before the node is appended, so
    an exception there leaves the container as it was. *)
Definition renderNewsItem (feed : Feed) (item : Item) (c : Controller) : Res unit * Controller :=
  match escapeHTML (item_title item) with
  | Ok title => (Ok tt, appendChild (node_of feed item title) c)
  | Throw e => (Throw e, c)
  | OutOfFuel => (OutOfFuel, c)
  end.

(** A string used as a condition: absent and empty strings are falsy. *)
Definition truthy (s : option string) : bool :=
  match s with
  | Some u => negb (u =? EmptyString)%string
  | None => false
  end.

(** [item.score || 0] *)
Definition score_or_0 (score : option Z) : Z :=
  match score with
  | Some z => z
  | None => 0%Z
  end.

(** The condition of the [if] in [onItemFetched]:
    [item.type === 'story' && item.url] for the best feed, and for the latest
    feed also [(item.score || 0) >= MIN_SCORE_LATEST]. *)
Definition isValid (cst : Constants) (feed : Feed) (item : Item) : bool :=
  match feed with
  | Best => (item_type item =? "story")%string && truthy (item_url item)
  | Latest => (item_type item =? "story")%string && truthy (item_url item)
              && (score_or_0 (item_score item) >=? MIN_SCORE_LATEST cst)%Z
  end.

(** [const onItemFetched = (item) => { if (...) { render(item); return true; } return false; }] *)
Definition onItemFetched (cst : Constants) (feed : Feed) (item : Item) (c : Controller)
  : Res bool * Controller :=
  if isValid cst feed item then
    match renderNewsItem feed item c with
    | (Ok _, c') => (Ok true, c')
    | (Throw e, c') => (Throw e, c')
    | (OutOfFuel, c') => (OutOfFuel, c')
    end
  else (Ok false, c).

(** [function updateBestNewsLoadButton()] and [function updateLatestNewsLoadButton()] *)
Definition updateLoadButton (cst : Constants) (c : Controller) : Controller :=
  let totalProcessedIds := (newsPage c + 1) * ITEMS_PER_PAGE cst in
  let hasMore := totalProcessedIds <? List.length (newsIds c) in
  set_display (if hasMore then display_block else display_none) c.

(** [const onBatchComplete = () => { updateBestNewsLoadButton(); }] *)
Definition onBatchComplete (cst : Constants) (validItemsCount : nat) (c : Controller)
  : Res unit * Controller :=
  (Ok tt, updateLoadButton cst c).

(** The part of [loadMore...News] before its [await]: the guard, the latch and
    the slice of ids of the page. *)
Definition loadMore_enter (cst : Constants) (c : Controller) : option (list Z) * Controller :=
  if newsLoading c || (List.length (newsIds c) <=? newsPage c * ITEMS_PER_PAGE cst) then (None, c)
  else
    let startIndex := newsPage c * ITEMS_PER_PAGE cst in
    let endIndex := startIndex + ITEMS_PER_PAGE cst in
    (Some (slice (newsIds c) startIndex endIndex), set_loading true c).

(** The part after the [await]: [bestNewsPage++; bestNewsLoading = false;] *)
Definition loadMore_resume (c : Controller) : Controller :=
  set_loading false (set_page (newsPage c + 1) c).

Definition fetchPage (cst : Constants) (feed : Feed) (net : Net) (latency : Z -> nat)
    (batchIds : list Z) : M Controller unit :=
  fetchItemsWithConcurrency (MAX_CONCURRENT_REQUESTS cst) net latency batchIds
    (onItemFetched cst feed) (onBatchComplete cst).

(** [async function loadMoreBestNews()] and [async function loadMoreLatestNews()],
    run until the promise they return settles. *)
Definition loadMore (cst : Constants) (feed : Feed) (net : Net) (latency : Z -> nat)
  : M Controller unit :=
  fun w =>
    match loadMore_enter cst (user w) with
    | (None, _) => (Ok tt, w)
    | (Some batchIds, c) =>
        match fetchPage cst feed net latency batchIds {| user := c; events := events w |} with
        | (Ok _, w') => (Ok tt, {| user := loadMore_resume (user w'); events := events w' |})
        | other => other
        end
    end.

Definition loadMoreBestNews : Net -> (Z -> nat) -> M Controller unit := loadMore script_js Best.
Definition loadMoreLatestNews : Net -> (Z -> nat) -> M Controller unit := loadMore script_js Latest.

(** [async function initializeBestNews()] and [async function initializeLatestNews()] *)
Definition initializeNews (cst : Constants) (feed : Feed) (net : Net) (latency : Z -> nat)
  : M Controller unit :=
  let p := fetchFromAPI net (feed_api feed) in
  _ <- log (map EvFetch (issued p) ++ map EvSettled (issued p)) ;;
  ids <- (fun w => (outcome p, w)) ;;
  if (List.length ids =? 0) then ret tt
  else
    _ <- call (fun c => (Ok tt, set_page 0 (set_ids ids c))) ;;
    loadMore cst feed net latency.

(** ** Sequential calls and interleaved calls *)

(** The network and the latencies during one call. *)
Record Env := {
  env_net : Net;
  env_latency : Z -> nat
}.

(** One [advance()] per environment, each awaited before the next is made. *)
Fixpoint advances (cst : Constants) (feed : Feed) (envs : list Env) : M Controller unit :=
  match envs with
  | [] => ret tt
  | e :: rest =>
      _ <- loadMore cst feed (env_net e) (env_latency e) ;;
      advances cst feed rest
  end.

(** The second disjunct of the guard of [loadMore...News]. *)
Definition exhausted (cst : Constants) (c : Controller) : bool :=
  List.length (newsIds c) <=? newsPage c * ITEMS_PER_PAGE cst.

Definition ceil_div (L P : nat) : nat := (L + P - 1) / P.

(** A controller together with the calls of [loadMore...News] that are
    suspended at their [await], each with the ids of its page. *)
Record Config := {
  world : World Controller;
  suspended : list (list Z)
}.

Inductive Label :=
| LAdvance                 (* loadMore...News() is called *)
| LSettle (r : Res unit).  (* the fetcher awaited by a suspended call settles *)

(** A call runs up to its [await] at once; no other code of the script writes
    the globals of the feed, so the fetch a suspended call waits for is run
    when it settles.  Every settlement of that fetch is allowed: any network,
    any latencies. *)
Inductive step (cst : Constants) (feed : Feed) : Config -> Label -> Config -> Prop :=
| step_return cfg :
    fst (loadMore_enter cst (user (world cfg))) = None ->
    step cst feed cfg LAdvance cfg
| step_suspend cfg batchIds c :
    loadMore_enter cst (user (world cfg)) = (Some batchIds, c) ->
    step cst feed cfg LAdvance
      {| world := {| user := c; events := events (world cfg) |};
         suspended := suspended cfg ++ [batchIds] |}
| step_resume cfg batchIds rest env w :
    suspended cfg = batchIds :: rest ->
    fetchPage cst feed (env_net env) (env_latency env) batchIds (world cfg) = (Ok tt, w) ->
    step cst feed cfg (LSettle (Ok tt))
      {| world := {| user := loadMore_resume (user w); events := events w |};
         suspended := rest |}
| step_reject cfg batchIds rest env e w :
    suspended cfg = batchIds :: rest ->
    fetchPage cst feed (env_net env) (env_latency env) batchIds (world cfg) = (Throw e, w) ->
    step cst feed cfg (LSettle (Throw e)) {| world := w; suspended := rest |}.

(** The states a feed can be in once its id list is [ids] and its cursor 0. *)
Inductive reachable (cst : Constants) (feed : Feed) (ids : list Z) : Config -> Prop :=
| reach_init w :
    newsIds (user w) = ids -> newsPage (user w) = 0 -> newsLoading (user w) = false ->
    reachable cst feed ids {| world := w; suspended := [] |}
| reach_step cfg l cfg' :
    reachable cst feed ids cfg -> step cst feed cfg l cfg' ->
    reachable cst feed ids cfg'.

(** ** Reading a log *)

Definition items_of (tr : list Event) : list Item :=
  flat_map (fun e => match e with EvItem item => [item] | _ => [] end) tr.

Definition requests_of (tr : list Event) : list Endpoint :=
  flat_map (fun e => match e with EvFetch url => [url] | _ => [] end) tr.

Definition dones_of (tr : list Event) : list nat :=
  flat_map (fun e => match e with EvDone n => [n] | _ => [] end) tr.

(** Requests issued and not yet settled at the end of [tr]. *)
Fixpoint inflight (tr : list Event) : Z :=
  match tr with
  | [] => 0
  | EvFetch _ :: rest => 1 + inflight rest
  | EvSettled _ :: rest => -1 + inflight rest
  | _ :: rest => inflight rest
  end%Z.

(** Every prefix of a log has between 0 and [k] requests in flight. *)
Definition bounded (k : nat) (tr : list Event) : Prop :=
  forall n, (0 <= inflight (firstn n tr) <= Z.of_nat k)%Z.

(** A log made of chunks of at most [K] ids: the requests of a chunk, their
    settlements in some order, then the items handed to the callback; the
    next chunk, or the completion event, only follows after that. *)
Inductive chunked (K : nat) : list Event -> Prop :=
| chunked_nil : chunked K []
| chunked_done n : chunked K [EvDone n]
| chunked_chunk batchIds settled items rest :
    List.length batchIds <= K ->
    Permutation settled batchIds ->
    chunked K rest ->
    chunked K (map (fun id => EvFetch (ITEM_API id)) batchIds
               ++ map (fun id => EvSettled (ITEM_API id)) settled
               ++ map EvItem items ++ rest).

(** ** What a page is expected to produce *)

(** The value [fetchItemDetails(id)] resolves to. *)
Definition fetched (net : Net) (id : Z) : option Item :=
  match outcome (fetchItemDetails net id) with
  | Ok v => v
  | _ => None
  end.

Definition somes {A} (l : list (option A)) : list A :=
  flat_map (fun o => match o with Some a => [a] | None => [] end) l.

(** The items of [ids] that were fetched, in the order of [ids]. *)
Definition present (net : Net) (ids : list Z) : list Item := somes (map (fetched net) ids).

(** The callback applied to the items one after the other, counting the
    [true] results: what the callbacks do, without the fetching around them. *)
Fixpoint run_items {St} (onItem : Item -> St -> Res bool * St)
    (items : list Item) (validItemsCount : nat) (s : St) : Res nat * St :=
  match items with
  | [] => (Ok validItemsCount, s)
  | item :: rest =>
      match onItem item s with
      | (Ok valid, s') =>
          run_items onItem rest (if valid then validItemsCount + 1 else validItemsCount) s'
      | (Throw e, s') => (Throw e, s')
      | (OutOfFuel, s') => (OutOfFuel, s')
      end
  end.

(** An item that passes the check but has no title: rendering it throws. *)
Definition crashes (cst : Constants) (feed : Feed) (item : Item) : bool :=
  isValid cst feed item && match item_title item with Some _ => false | None => true end.

Definition page_safe (cst : Constants) (feed : Feed) (net : Net) (ids : list Z) : bool :=
  forallb (fun item => negb (crashes cst feed item)) (present net ids).

(** The nodes of the items of [items] that pass the check, in the same order. *)
Definition nodes_of (cst : Constants) (feed : Feed) (items : list Item) : list Node :=
  flat_map (fun item =>
    if isValid cst feed item then
      match item_title item with
      | Some t => [node_of feed item (replace_special t)]
      | None => []
      end
    else []) items.

Definition page_ids (cst : Constants) (c : Controller) : list Z :=
  slice (newsIds c) (newsPage c * ITEMS_PER_PAGE cst)
        (newsPage c * ITEMS_PER_PAGE cst + ITEMS_PER_PAGE cst).


Definition add_nodes (nodes : list Node) (c : Controller) : Controller :=
  {| newsIds := newsIds c; newsPage := newsPage c; newsLoading := newsLoading c;
     container := container c ++ nodes; loadBtn := loadBtn c |}.

(** The controller after a page that was fetched and rendered to the end. *)
Definition page_done (cst : Constants) (feed : Feed) (net : Net) (c : Controller) : Controller :=
  {| newsIds := newsIds c;
     newsPage := newsPage c + 1;
     newsLoading := false;
     container := container c ++ nodes_of cst feed (present net (page_ids cst c));
     loadBtn := if (newsPage c + 1) * ITEMS_PER_PAGE cst <? List.length (newsIds c)
                then display_block else display_none |}.

(** The number of fetched items of [ids] that pass the check of the feed. *)
Definition valid_count (cst : Constants) (feed : Feed) (net : Net) (ids : list Z) : nat :=
  List.length (filter (isValid cst feed) (present net ids)).

(** The three globals of a feed, without its container and its button. *)
Definition globals (c : Controller) : list Z * nat * bool :=
  (newsIds c, newsPage c, newsLoading c).

(** The test of the item callback, in words: the type is ['story'], the URL
    is present and not empty, and for the latest feed the score, 0 when
    absent, is at least [MIN_SCORE_LATEST]. *)
Definition accepted (cst : Constants) (feed : Feed) (item : Item) : Prop :=
  item_type item = "story" /\
  (exists u, item_url item = Some u /\ u <> EmptyString) /\
  (feed = Latest -> (MIN_SCORE_LATEST cst <= score_or_0 (item_score item))%Z).

(** What holds of a feed between two steps: the id list is the loaded one,
    the cursor is at most one page past the end of the list, and at most one
    call is suspended, with the latch closed and its page inside the list. *)
Definition latch_inv (cst : Constants) (ids : list Z) (cfg : Config) : Prop :=
  newsIds (user (world cfg)) = ids /\
  newsPage (user (world cfg)) * ITEMS_PER_PAGE cst
    <= List.length ids + (ITEMS_PER_PAGE cst - 1) /\
  (suspended cfg = [] \/
   (exists batchIds, suspended cfg = [batchIds]) /\
   newsLoading (user (world cfg)) = true /\
   newsPage (user (world cfg)) * ITEMS_PER_PAGE cst < List.length ids).

(** What a batch does to the state of its callbacks, without the fetching:
    the item callback over the fetched items, then the completion callback. *)
Definition batch_outcome {St} (onItem : Item -> St -> Res bool * St)
    (onDone : nat -> St -> Res unit * St) (items : list Item) (s : St) : Res unit * St :=
  match run_items onItem items 0 s with
  | (Ok n, s') => onDone n s'
  | (Throw e, s') => (Throw e, s')
  | (OutOfFuel, s') => (OutOfFuel, s')
  end.

Definition set_title (title : option string) (item : Item) : Item :=
  {| item_id := item_id item; item_type := item_type item; item_title := title;
     item_url := item_url item; item_time := item_time item; item_score := item_score item |}.


(** * The rest of the script *)

(** ** Numbers of the time functions

    The script computes with doubles.  A number is written [Some] integer or
    [None] for [NaN]; a timestamp that is absent makes every number computed
    from it [NaN].  The integer operations below are those of the script as
    long as the clock, the timestamp in milliseconds and their difference are
    safe integers (at most [MAX_SAFE_INTEGER] in absolute value): there the
    product, the difference and the floored quotients by 1000, 60, 24 and 30
    are exact in doubles, and a count is printed with all its digits.  Beyond
    that range doubles round and the operations say nothing about the script;
    the properties of the time labels are stated under [exact_times]. *)

(** [Number.MAX_SAFE_INTEGER], 2^53 - 1 *)
Definition MAX_SAFE_INTEGER : Z := 9007199254740991.

(** The clock [now] (milliseconds) and the timestamp [t] (seconds) for which
    the numbers of the time functions are computed exactly. *)
Definition exact_times (now t : Z) : Prop :=
  (Z.abs now <= MAX_SAFE_INTEGER)%Z /\
  (Z.abs (t * 1000) <= MAX_SAFE_INTEGER)%Z /\
  (Z.abs (now - t * 1000) <= MAX_SAFE_INTEGER)%Z.

(** [a * k], for a safe integer product *)
Definition js_mul (a : option Z) (k : Z) : option Z := option_map (fun x => (x * k)%Z) a.

(** [now - a], for a safe integer difference *)
Definition js_sub_from (now : Z) (a : option Z) : option Z :=
  option_map (fun x => (now - x)%Z) a.

(** [Math.floor(a / d)] for a safe integer [a] and a positive [d] *)
Definition js_floor_div (a : option Z) (d : Z) : option Z := option_map (fun x => (x / d)%Z) a.

(** [-a] *)
Definition js_neg (a : option Z) : option Z := option_map Z.opp a.

(** [a < b]: false when [a] is [NaN] *)
Definition js_lt (a : option Z) (b : Z) : bool :=
  match a with
  | Some x => (x <? b)%Z
  | None => false
  end.

(** [a === b]: false when [a] is [NaN] *)
Definition js_is (a : option Z) (b : Z) : bool :=
  match a with
  | Some x => (x =? b)%Z
  | None => false
  end.

(** A number inside a template string: a safe integer, or [NaN]. *)
Definition js_str (a : option Z) : string :=
  match a with
  | Some x => NilZero.string_of_int (Z.to_int x)
  | None => "NaN"
  end.

(** [function formatRelativeTimeFallback(unixTimestamp)], with the clock as
    an argument. *)
Definition formatRelativeTimeFallback (now : Z) (unixTimestamp : option Z) : string :=
  let postTime := js_mul unixTimestamp 1000 in
  let diffMs := js_sub_from now postTime in
  let diffSecs := js_floor_div diffMs 1000 in
  let diffMins := js_floor_div diffSecs 60 in
  let diffHours := js_floor_div diffMins 60 in
  let diffDays := js_floor_div diffHours 24 in
  if js_lt diffSecs 60 then "just now"
  else if js_lt diffMins 60 then
    if js_is diffMins 1 then "1 minute ago"
    else String.append (js_str diffMins) " minutes ago"
  else if js_lt diffHours 24 then
    if js_is diffHours 1 then "1 hour ago"
    else String.append (js_str diffHours) " hours ago"
  else if js_lt diffDays 30 then
    if js_is diffDays 1 then "1 day ago"
    else String.append (js_str diffDays) " days ago"
  else
    let diffMonths := js_floor_div diffDays 30 in
    if js_is diffMonths 1 then "1 month ago"
    else String.append (js_str diffMonths) " months ago".

Inductive TimeUnit := Minute | Hour | Day | Month.

(** The browser's [Intl.RelativeTimeFormat]: whether the constructor exists,
    and what [rtf.format(value, unit)] returns for an integer, [None] when it
    throws. *)
Record Intl := {
  RelativeTimeFormat : bool;
  rtf_format : Z -> TimeUnit -> option string
}.

(** [rtf.format(value, unit)]: a [NaN] value is a RangeError. *)
Definition format (intl : Intl) (value : option Z) (unit : TimeUnit) : option string :=
  match value with
  | Some v => rtf_format intl v unit
  | None => None
  end.

(** The [try] block of [formatRelativeTime]; [None] when it throws. *)
Definition formatRelativeTime_try (intl : Intl) (now : Z) (unixTimestamp : option Z)
  : option string :=
  if negb (RelativeTimeFormat intl) then None
  else
    let postTime := js_mul unixTimestamp 1000 in
    let diffMs := js_sub_from now postTime in
    let diffSecs := js_floor_div diffMs 1000 in
    let diffMins := js_floor_div diffSecs 60 in
    let diffHours := js_floor_div diffMins 60 in
    let diffDays := js_floor_div diffHours 24 in
    let diffMonths := js_floor_div diffDays 30 in
    if js_lt diffSecs 60 then Some "just now"
    else if js_lt diffMins 60 then format intl (js_neg diffMins) Minute
    else if js_lt diffHours 24 then format intl (js_neg diffHours) Hour
    else if js_lt diffDays 30 then format intl (js_neg diffDays) Day
    else format intl (js_neg diffMonths) Month.

(** [function formatRelativeTime(unixTimestamp)]: the [catch] takes any
    exception of the [try] block to the fallback. *)
Definition formatRelativeTime (intl : Intl) (now : Z) (unixTimestamp : option Z) : string :=
  match formatRelativeTime_try intl now unixTimestamp with
  | Some label => label
  | None => formatRelativeTimeFallback now unixTimestamp
  end.

(** The label of [n] units: the singular for 1, the decimal number and the
    plural otherwise. *)
Definition ago (n : Z) (unit : string) : string :=
  if (n =? 1)%Z then String.append "1 " (String.append unit " ago")
  else String.append (NilZero.string_of_int (Z.to_int n))
         (String.append " " (String.append unit "s ago")).

(** ** Domains *)

(** [s.slice(n)] on a string *)
Definition slice_from (n : nat) (s : string) : string :=
  substring n (String.length s - n) s.

(** [function extractDomain(url)]; [hostname_of url] is [new URL(url).hostname],
    [None] when the constructor throws because the string is not a URL. *)
Definition extractDomain (hostname_of : string -> option string) (url : string)
  : Res string :=
  try_catch
    (res_bind (match hostname_of url with
               | Some hostname => Ok hostname
               | None => Throw TypeError
               end)
       (fun hostname =>
          Ok (if prefix "www." hostname then slice_from 4 hostname else hostname)))
    (fun _ => Ok "unknown").

(** ** Characters of a string *)

(** The five characters [escapeHTML] replaces. *)
Definition special (c : ascii) : bool :=
  Ascii.eqb c "&" || Ascii.eqb c "<" || Ascii.eqb c ">"
  || Ascii.eqb c double_quote || Ascii.eqb c "'".

(** The four of them that can open or close a tag or an attribute value. *)
Definition markup (c : ascii) : bool :=
  Ascii.eqb c "<" || Ascii.eqb c ">" || Ascii.eqb c double_quote || Ascii.eqb c "'".

Definition node_title (n : Node) : string :=
  match n with
  | GalleryLink _ _ title _ => title
  | ListEntry title _ _ => title
  end.

(** ** More of the log *)

Definition settled_of (tr : list Event) : list Endpoint :=
  flat_map (fun e => match e with EvSettled url => [url] | _ => [] end) tr.

(** ** The page as a whole

    [init] starts both feeds and attaches the two click handlers once both
    have settled without an exception.  The feeds share no state: each has its
    world, and [listeners] holds the feeds whose button has its handler. *)
Record App := {
  bestNews : World Controller;
  latestNews : World Controller;
  listeners : list Feed
}.

(** [async function init()]: [await Promise.all([initializeBestNews(),
    initializeLatestNews()])], then the two [addEventListener] calls. *)
Definition init (cst : Constants) (net : Net) (latency : Z -> nat) (app : App)
  : Res unit * App :=
  let '(rb, wb) := initializeNews cst Best net latency (bestNews app) in
  let '(rl, wl) := initializeNews cst Latest net latency (latestNews app) in
  match promise_all [ {| issued := []; outcome := rb |}; {| issued := []; outcome := rl |} ] with
  | Ok _ =>
      (Ok tt, {| bestNews := wb; latestNews := wl;
                 listeners := listeners app ++ [Best; Latest] |})
  | Throw e => (Throw e, {| bestNews := wb; latestNews := wl; listeners := listeners app |})
  | OutOfFuel => (OutOfFuel, {| bestNews := wb; latestNews := wl; listeners := listeners app |})
  end.

(** A click on the button of [feed]: [handleLoadMoreBest] or
    [handleLoadMoreLatest] when the handler is attached, nothing otherwise. *)
Definition click (cst : Constants) (feed : Feed) (net : Net) (latency : Z -> nat) (app : App)
  : Res unit * App :=
  if existsb (fun f => match f, feed with Best, Best | Latest, Latest => true | _, _ => false end)
       (listeners app)
  then
    match feed with
    | Best =>
        let '(r, w) := loadMore cst Best net latency (bestNews app) in
        (r, {| bestNews := w; latestNews := latestNews app; listeners := listeners app |})
    | Latest =>
        let '(r, w) := loadMore cst Latest net latency (latestNews app) in
        (r, {| bestNews := bestNews app; latestNews := w; listeners := listeners app |})
    end
  else (Ok tt, app).

(** A feed in which nothing is suspended and the guard of [loadMore...News]
    fails: the list is used up, or the loading flag was left set. *)
Definition stuck (cst : Constants) (cfg : Config) : Prop :=
  suspended cfg = [] /\
  (newsLoading (user (world cfg)) = true \/ exhausted cst (user (world cfg)) = true).

(** The call suspended in a feed, if any, waits for the page at the cursor,
    with the loading flag set. *)
Definition one_page_pending (cst : Constants) (ids : list Z) (cfg : Config) : Prop :=
  newsIds (user (world cfg)) = ids /\
  (suspended cfg = [] \/
   suspended cfg = [page_ids cst (user (world cfg))] /\
   newsLoading (user (world cfg)) = true).

(** The unit a label is given in, by the milliseconds elapsed, the length of
    each unit in milliseconds (a month is 30 days), and its name. *)
Definition elapsed_unit (elapsed : Z) : TimeUnit :=
  if (elapsed <? 3600000)%Z then Minute
  else if (elapsed <? 86400000)%Z then Hour
  else if (elapsed <? 2592000000)%Z then Day
  else Month.

Definition unit_ms (unit : TimeUnit) : Z :=
  match unit with
  | Minute => 60000
  | Hour => 3600000
  | Day => 86400000
  | Month => 2592000000
  end.

Definition unit_name (unit : TimeUnit) : string :=
  match unit with
  | Minute => "minute"
  | Hour => "hour"
  | Day => "day"
  | Month => "month"
  end.

Definition feed_world (feed : Feed) (app : App) : World Controller :=
  match feed with
  | Best => bestNews app
  | Latest => latestNews app
  end.

(** ** The order of requests and items in a log *)

(** The ids of the item requests among [urls]. *)
Definition item_ids (urls : list Endpoint) : list Z :=
  flat_map (fun url => match url with ITEM_API id => [id] | _ => [] end) urls.

(** A log in which the chunks follow one another, with the network [net]:
    a chunk is the requests of at most [K] ids, their settlements in some
    order, and then every fetched item of those ids, in their order; only
    after that comes the next chunk or the completion event.  The log may end
    inside a chunk, after some of its items. *)
Inductive in_sequence (K : nat) (net : Net) : list Event -> Prop :=
| in_sequence_end : in_sequence K net []
| in_sequence_done n : in_sequence K net [EvDone n]
| in_sequence_cut batchIds settled k :
    List.length batchIds <= K ->
    Permutation settled batchIds ->
    in_sequence K net
      (map (fun id => EvFetch (ITEM_API id)) batchIds
       ++ map (fun id => EvSettled (ITEM_API id)) settled
       ++ map EvItem (firstn k (present net batchIds)))
| in_sequence_chunk batchIds settled rest :
    List.length batchIds <= K ->
    Permutation settled batchIds ->
    in_sequence K net rest ->
    in_sequence K net
      (map (fun id => EvFetch (ITEM_API id)) batchIds
       ++ map (fun id => EvSettled (ITEM_API id)) settled
       ++ map EvItem (present net batchIds) ++ rest).
(** ** Sample inputs *)

Definition net_down : Net :=
  {| listReply := fun _ => Rejected; itemReply := fun _ => Reply 503 None |}.


(** A story as the item endpoint returns it. *)
Definition story (id : Z) (title url : option string) (score : option Z) : Item :=
  {| item_id := id; item_type := "story"; item_title := title; item_url := url;
     item_time := Some 1700000000%Z; item_score := score |}.

Definition ids7 : list Z := [1; 2; 3; 4; 5; 6; 7]%Z.

(** Every item is a titled story with a URL. *)
Definition net_stories : Net :=
  {| listReply := fun _ => Reply 200 (Some ids7);
     itemReply := fun id =>
       Reply 200 (Some (Some (story id (Some "A <b>story</b>")
                                 (Some "https://www.example.com/x") (Some 5%Z)))) |}.

(** Every item is a story with a URL and without a title. *)
Definition net_untitled : Net :=
  {| listReply := fun _ => Reply 200 (Some ids7);
     itemReply := fun id =>
       Reply 200 (Some (Some (story id None (Some "https://www.example.com/x") None))) |}.

(** Later ids answer first. *)
Definition env_stories : Env :=
  {| env_net := net_stories; env_latency := fun id => Z.to_nat (100 - id) |}.

Definition env_down : Env :=
  {| env_net := net_down; env_latency := fun _ => 0 |}.

Definition env_untitled : Env :=
  {| env_net := net_untitled; env_latency := fun _ => 0 |}.

(** A feed whose id list is loaded and whose cursor is 0. *)
Definition loaded (ids : list Z) : World Controller :=
  {| user := {| newsIds := ids; newsPage := 0; newsLoading := false;
                container := []; loadBtn := display_block |};
     events := [] |}.

(** A feed in the middle of a page fetch. *)
Definition loading (ids : list Z) : World Controller :=
  {| user := {| newsIds := ids; newsPage := 0; newsLoading := true;
                container := []; loadBtn := display_block |};
     events := [] |}.

(** A story whose URL is the empty string. *)
Definition story_empty_url : Item :=
  story 42 (Some "Ask: anything") (Some EmptyString) (Some 10%Z).

(** A story with a URL and no title. *)
Definition story_untitled : Item :=
  story 42 None (Some "https://www.example.com/x") (Some 10%Z).

(** Callbacks over a counter: every item is accepted and counted. *)
Definition accept_all (item : Item) (s : nat) : Res bool * nat := (Ok true, S s).

Definition keep_state (validItemsCount : nat) (s : nat) : Res unit * nat := (Ok tt, s).

(** The best feed with seven ids, right after the first call got suspended. *)
Definition first_page_pending : Config :=
  {| world := loading ids7; suspended := [[1; 2; 3; 4; 5; 6]%Z] |}.

(** A story without a title whose URL is the empty string. *)
Definition story_empty_url_untitled : Item :=
  story 42 None (Some EmptyString) (Some 10%Z).

(** Two latency assignments that order every chunk differently. *)
Definition ascending (id : Z) : nat := Z.to_nat id.
Definition descending (id : Z) : nat := Z.to_nat (100 - id).

(** A title with markup in it. *)
Definition title_with_markup : string := "<img src=x onerror='alert(1)'> & more".

(** A browser whose formatter answers in its own words. *)
Definition intl_en : Intl :=
  {| RelativeTimeFormat := true;
     rtf_format := fun v unit =>
       match v, unit with
       | (-1)%Z, Day => Some "yesterday"
       | _, _ => Some (ago (- v) (unit_name unit))
       end |}.

(** A browser without [Intl.RelativeTimeFormat]. *)
Definition intl_none : Intl :=
  {| RelativeTimeFormat := false; rtf_format := fun _ _ => None |}.

(** A URL parser that knows one address. *)
Definition hostname_example (url : string) : option string :=
  if (url =? "https://www.example.com/x")%string then Some "www.example.com" else None.

(** The body the item endpoint of a network sends for an id, [null] when it
    sends none. *)
Definition itemReply_body (net : Net) (id : Z) : option Item :=
  match itemReply net id with
  | Reply _ (Some body) => body
  | _ => None
  end.

(** Every item is a story whose title carries markup. *)
Definition net_markup : Net :=
  {| listReply := fun _ => Reply 200 (Some ids7);
     itemReply := fun id =>
       Reply 200 (Some (Some (story id (Some title_with_markup)
                                 (Some "https://www.example.com/x") (Some 5%Z)))) |}.

(** The page as it is loaded: both feeds empty, no handler attached. *)
Definition fresh (ids : list Z) : World Controller :=
  {| user := {| newsIds := ids; newsPage := 0; newsLoading := false;
                container := []; loadBtn := display_block |};
     events := [] |}.

Definition app0 : App :=
  {| bestNews := fresh []; latestNews := fresh []; listeners := [] |}.

(** The list endpoints answer, and item 3 is a story without a title. *)
Definition net_one_untitled : Net :=
  {| listReply := fun _ => Reply 200 (Some ids7);
     itemReply := fun id =>
       Reply 200 (Some (Some (story id (if (id =? 3)%Z then None else Some "Title")
                                 (Some "https://www.example.com/x") (Some 5%Z)))) |}.
(** * Properties *)

(** ** The API client *)

Lemma request_body_cases {A} (r : Response A) :
  (exists v, request_body r = Ok v) \/ (exists e, request_body r = Throw e).
Proof.
  destruct r as [|status [v|]]; unfold request_body; simpl.
  - right; eauto.
  - destruct (res_ok status); simpl; eauto.
  - destruct (res_ok status); simpl; eauto.
Qed.

Lemma request_body_failed {A} (r : Response A) :
  failed r -> exists e, request_body r = Throw e.
Proof.
  destruct r as [|status body]; unfold request_body; simpl.
  - eauto.
  - intros [Hok | Hbody].
    + rewrite Hok; simpl; eauto.
    + subst body. destruct (res_ok status); simpl; eauto.
Qed.

Lemma request_body_success {A} (status : nat) (v : A) :
  res_ok status = true -> request_body (Reply status (Some v)) = Ok v.
Proof. intros Hok. unfold request_body; simpl. now rewrite Hok. Qed.

Lemma fetchItemDetails_resolves (net : Net) (id : Z) :
  outcome (fetchItemDetails net id) = Ok (fetched net id).
Proof.
  unfold fetched. simpl.
  destruct (request_body_cases (itemReply net id)) as [[v Hv] | [e He]].
  - rewrite Hv; reflexivity.
  - rewrite He; reflexivity.
Qed.

Lemma fetchItemDetails_failed (net : Net) (id : Z) :
  failed (itemReply net id) -> outcome (fetchItemDetails net id) = Ok None.
Proof.
  intros Hf. destruct (request_body_failed _ Hf) as [e He].
  simpl. now rewrite He.
Qed.

Lemma api_client_settles (net : Net) (url : Endpoint) :
  exists ids, outcome (fetchFromAPI net url) = Ok ids.
Proof.
  simpl. destruct (request_body_cases (listReply net url)) as [[v Hv] | [e He]].
  - rewrite Hv; simpl; eauto.
  - rewrite He; simpl; eauto.
Qed.

(** C8: both client functions issue one request and settle to a value, the
    empty id list or the absent item when the request fails; nothing is
    thrown and nothing is requested a second time. *)
Theorem api_client_failure_defaults (net : Net) (url : Endpoint) (id : Z) :
  issued (fetchFromAPI net url) = [url] /\
  issued (fetchItemDetails net id) = [ITEM_API id] /\
  (exists ids, outcome (fetchFromAPI net url) = Ok ids) /\
  (exists item, outcome (fetchItemDetails net id) = Ok item) /\
  (failed (listReply net url) -> outcome (fetchFromAPI net url) = Ok []) /\
  (failed (itemReply net id) -> outcome (fetchItemDetails net id) = Ok None).
Proof.
  repeat split.
  - simpl. destruct (request_body_cases (listReply net url)) as [[v Hv] | [e He]].
    + rewrite Hv; simpl; eauto.
    + rewrite He; simpl; eauto.
  - rewrite fetchItemDetails_resolves; eauto.
  - intros Hf. destruct (request_body_failed _ Hf) as [e He].
    simpl. now rewrite He.
  - intros Hf. destruct (request_body_failed _ Hf) as [e He].
    simpl. now rewrite He.
Qed.

Lemma api_client_failure_defaults_witness :
  failed (listReply net_down BEST_NEWS_API) /\
  failed (itemReply net_down 7%Z) /\
  outcome (fetchFromAPI net_down BEST_NEWS_API) = Ok [] /\
  outcome (fetchItemDetails net_down 7%Z) = Ok None.
Proof.
  pose proof (api_client_failure_defaults net_down BEST_NEWS_API 7%Z)
    as (_ & _ & _ & _ & Hlist & Hitem).
  assert (H1 : failed (listReply net_down BEST_NEWS_API)) by (simpl; exact I).
  assert (H2 : failed (itemReply net_down 7%Z)) by (simpl; left; reflexivity).
  exact (conj H1 (conj H2 (conj (Hlist H1) (Hitem H2)))).
Defined.

(** ** Lists, slices and logs *)

Lemma slice_length {A} (l : list A) (i k : nat) : List.length (slice l i (i + k)) <= k.
Proof.
  unfold slice. replace (i + k - i) with k by lia.
  rewrite length_firstn. lia.
Qed.

Lemma skipn_slice {A} (l : list A) (i k : nat) :
  skipn i l = slice l i (i + k) ++ skipn (i + k) l.
Proof.
  unfold slice. replace (i + k - i) with k by lia.
  rewrite <- (firstn_skipn k (skipn i l)) at 1.
  rewrite skipn_skipn. now replace (k + i) with (i + k) by lia.
Qed.

Lemma insert_by_perm (latency : Z -> nat) (id : Z) (l : list Z) :
  Permutation (insert_by latency id l) (id :: l).
Proof.
  induction l as [|y rest IH]; simpl.
  - apply Permutation_refl.
  - destruct (latency id <=? latency y).
    + apply Permutation_refl.
    + eapply perm_trans; [apply perm_skip, IH | apply perm_swap].
Qed.

Lemma arrival_perm (latency : Z -> nat) (batchIds : list Z) :
  Permutation (arrival latency batchIds) batchIds.
Proof.
  induction batchIds as [|id rest IH]; simpl.
  - apply perm_nil.
  - eapply perm_trans; [apply insert_by_perm | apply perm_skip, IH].
Qed.

Lemma somes_app {A} (l1 l2 : list (option A)) : somes (l1 ++ l2) = somes l1 ++ somes l2.
Proof. unfold somes. apply flat_map_app. Qed.

Lemma present_app (net : Net) (l1 l2 : list Z) :
  present net (l1 ++ l2) = present net l1 ++ present net l2.
Proof. unfold present. now rewrite map_app, somes_app. Qed.

Lemma items_of_app (t1 t2 : list Event) : items_of (t1 ++ t2) = items_of t1 ++ items_of t2.
Proof. apply flat_map_app. Qed.

Lemma requests_of_app (t1 t2 : list Event) :
  requests_of (t1 ++ t2) = requests_of t1 ++ requests_of t2.
Proof. apply flat_map_app. Qed.

Lemma dones_of_app (t1 t2 : list Event) : dones_of (t1 ++ t2) = dones_of t1 ++ dones_of t2.
Proof. apply flat_map_app. Qed.

Lemma log_of_fetches (l : list Z) :
  items_of (map (fun id => EvFetch (ITEM_API id)) l) = [] /\
  requests_of (map (fun id => EvFetch (ITEM_API id)) l) = map ITEM_API l /\
  dones_of (map (fun id => EvFetch (ITEM_API id)) l) = [].
Proof. induction l as [|id l (H1 & H2 & H3)]; simpl; repeat split; congruence. Qed.

Lemma log_of_settled (l : list Z) :
  items_of (map (fun id => EvSettled (ITEM_API id)) l) = [] /\
  requests_of (map (fun id => EvSettled (ITEM_API id)) l) = [] /\
  dones_of (map (fun id => EvSettled (ITEM_API id)) l) = [].
Proof. induction l as [|id l (H1 & H2 & H3)]; simpl; repeat split; congruence. Qed.

Lemma log_of_items (l : list Item) :
  items_of (map EvItem l) = l /\ requests_of (map EvItem l) = [] /\ dones_of (map EvItem l) = [].
Proof. induction l as [|it l (H1 & H2 & H3)]; simpl; repeat split; congruence. Qed.

Lemma inflight_app (t1 t2 : list Event) : inflight (t1 ++ t2) = (inflight t1 + inflight t2)%Z.
Proof.
  induction t1 as [|e t1 IH]; [reflexivity|].
  destruct e; cbn [app inflight]; rewrite IH; lia.
Qed.

Lemma inflight_fetches (l : list Z) :
  inflight (map (fun id => EvFetch (ITEM_API id)) l) = Z.of_nat (List.length l).
Proof. induction l as [|id l IH]; cbn [List.length map inflight]; lia. Qed.

Lemma inflight_settled (l : list Z) :
  inflight (map (fun id => EvSettled (ITEM_API id)) l) = (- Z.of_nat (List.length l))%Z.
Proof. induction l as [|id l IH]; cbn [List.length map inflight]; lia. Qed.

Lemma inflight_items (l : list Item) : inflight (map EvItem l) = 0%Z.
Proof. induction l as [|it l IH]; cbn [map inflight]; lia. Qed.

Lemma bounded_app (k : nat) (t1 t2 : list Event) :
  bounded k t1 -> inflight t1 = 0%Z -> bounded k t2 -> bounded k (t1 ++ t2).
Proof.
  intros H1 Hz H2 n. rewrite firstn_app, inflight_app.
  destruct (Nat.le_gt_cases n (List.length t1)) as [Hle | Hgt].
  - replace (n - List.length t1) with 0 by lia. simpl. specialize (H1 n). lia.
  - rewrite firstn_all2 by lia. rewrite Hz. specialize (H2 (n - List.length t1)). lia.
Qed.

Lemma firstn_map_length {A B} (f : A -> B) (n : nat) (l : list A) :
  exists l', firstn n (map f l) = map f l' /\ List.length l' <= List.length l.
Proof.
  exists (firstn n l). split; [apply firstn_map | rewrite length_firstn; lia].
Qed.

Lemma bounded_chunk (k : nat) (batchIds settled : list Z) (items : list Item) :
  List.length batchIds <= k -> List.length settled = List.length batchIds ->
  bounded k (map (fun id => EvFetch (ITEM_API id)) batchIds
             ++ map (fun id => EvSettled (ITEM_API id)) settled ++ map EvItem items) /\
  inflight (map (fun id => EvFetch (ITEM_API id)) batchIds
            ++ map (fun id => EvSettled (ITEM_API id)) settled ++ map EvItem items) = 0%Z.
Proof.
  intros Hk Hlen. split.
  - intros n. rewrite !firstn_app, !inflight_app.
    destruct (firstn_map_length (fun id => EvFetch (ITEM_API id)) n batchIds) as (l1 & E1 & L1).
    destruct (Nat.le_gt_cases n (List.length batchIds)) as [Hle | Hgt].
    + rewrite length_map. replace (n - List.length batchIds) with 0 by lia.
      simpl. rewrite E1, inflight_fetches. lia.
    + rewrite (firstn_all2 (n := n)) by (rewrite length_map; lia).
      rewrite inflight_fetches, !length_map.
      destruct (firstn_map_length (fun id => EvSettled (ITEM_API id))
                  (n - List.length batchIds) settled) as (l2 & E2 & L2).
      rewrite E2, inflight_settled.
      destruct (firstn_map_length EvItem
                  (n - List.length batchIds - List.length settled) items) as (l3 & E3 & L3).
      rewrite E3, inflight_items. lia.
  - rewrite !inflight_app, inflight_fetches, inflight_settled, inflight_items. lia.
Qed.

Lemma chunked_bounded (k : nat) (tr : list Event) : chunked k tr -> bounded k tr.
Proof.
  induction 1 as [|n|batchIds settled items rest Hk Hperm Hrest IH].
  - intros n. rewrite firstn_nil. simpl. lia.
  - intros [|m]; simpl; [lia|]. rewrite firstn_nil. simpl. lia.
  - pose proof (Permutation_length Hperm) as Hlen.
    destruct (@bounded_chunk k batchIds settled items Hk Hlen) as [Hb Hz].
    rewrite !app_assoc. apply bounded_app; rewrite <- ?app_assoc; assumption.
Qed.

Lemma fuel_step (len i k fuel : nat) :
  i < len -> len - i + k <= S fuel * k -> len - (i + k) + k <= fuel * k.
Proof. intros Hlt Hfuel. destruct fuel; simpl in *; lia. Qed.

Lemma chunked_snoc_done (k : nat) (tr : list Event) (n : nat) :
  chunked k tr -> dones_of tr = [] -> chunked k (tr ++ [EvDone n]).
Proof.
  induction 1 as [| m | batchIds settled items rest Hk Hperm Hrest IH]; intros Hd.
  - apply chunked_done.
  - discriminate.
  - rewrite !dones_of_app in Hd.
    apply app_eq_nil in Hd as [_ Hd]. apply app_eq_nil in Hd as [_ Hd].
    apply app_eq_nil in Hd as [_ Hd].
    rewrite <- !app_assoc. apply chunked_chunk; auto.
Qed.

(** ** The monad *)

Lemma bind_Ok {St A B} (m : M St A) (k : A -> M St B) w a w' :
  m w = (Ok a, w') -> bind m k w = k a w'.
Proof. unfold bind. now intros ->. Qed.

Lemma bind_Throw {St A B} (m : M St A) (k : A -> M St B) w e w' :
  m w = (Throw e, w') -> bind m k w = (Throw e, w').
Proof. unfold bind. now intros ->. Qed.

Lemma bind_OutOfFuel {St A B} (m : M St A) (k : A -> M St B) w w' :
  m w = (OutOfFuel, w') -> bind m k w = (OutOfFuel, w').
Proof. unfold bind. now intros ->. Qed.

Lemma run_items_app {St} (onItem : Item -> St -> Res bool * St) (l1 l2 : list Item) :
  forall n s,
    run_items onItem (l1 ++ l2) n s =
    match run_items onItem l1 n s with
    | (Ok m, s') => run_items onItem l2 m s'
    | other => other
    end.
Proof.
  induction l1 as [|item l1 IH]; intros n s; simpl.
  - reflexivity.
  - destruct (onItem item s) as [[valid|e|] s']; auto.
Qed.

(** ** The chunked fetcher *)

Section FetcherFacts.
Variable K : nat.
Variable net : Net.
Variable latency : Z -> nat.
Variable St : Type.
Variable ids : list Z.
Variable onItem : Item -> St -> Res bool * St.

Lemma promise_all_resolves (batchIds : list Z) :
  promise_all (map (fetchItemDetails net) batchIds) = Ok (map (fetched net) batchIds).
Proof.
  induction batchIds as [|id rest IH]; [reflexivity|].
  cbn [map promise_all]. rewrite fetchItemDetails_resolves, IH. reflexivity.
Qed.

Lemma issued_by_batch (batchIds : list Z) :
  flat_map (@issued _) (map (fetchItemDetails net) batchIds) = map ITEM_API batchIds.
Proof. induction batchIds as [|id rest IH]; simpl; congruence. Qed.

Lemma awaitBatch_eq (batchIds : list Z) (w : World St) :
  awaitBatch net latency batchIds w =
  (Ok (map (fetched net) batchIds),
   {| user := user w; events := events w ++ chunk_log latency batchIds |}).
Proof.
  unfold awaitBatch, bind, log, chunk_log; simpl.
  rewrite promise_all_resolves, issued_by_batch, map_map, <- app_assoc.
  reflexivity.
Qed.

Lemma forEach_run (batchItems : list (option Item)) :
  forall n (w : World St),
  exists handed,
    forEach onItem batchItems n w =
    (fst (run_items onItem (somes batchItems) n (user w)),
     {| user := snd (run_items onItem (somes batchItems) n (user w));
        events := events w ++ map EvItem handed |}) /\
    (forall m, fst (run_items onItem (somes batchItems) n (user w)) = Ok m ->
               handed = somes batchItems).
Proof.
  induction batchItems as [|[item|] rest IH]; intros n w.
  - exists []. simpl. rewrite app_nil_r. destruct w; auto.
  - cbn [forEach]. unfold bind at 1. unfold log at 1.
    unfold bind at 1. unfold call at 1. cbn [user events].
    change (somes (Some item :: rest)) with (item :: somes rest).
    cbn [run_items].
    destruct (onItem item (user w)) as [[valid|e|] s'].
    + destruct (IH (if valid then n + 1 else n)
                   {| user := s'; events := events w ++ [EvItem item] |})
        as (handed & Heq & Hall).
      exists (item :: handed). cbn [user events] in *. split.
      * rewrite Heq. cbn [map]. now rewrite <- app_assoc.
      * intros m Hm. f_equal. eauto.
    + exists [item]. cbn [fst snd map]. split; [reflexivity | discriminate].
    + exists [item]. cbn [fst snd map]. split; [reflexivity | discriminate].
  - apply IH.
Qed.

(** The log of the loop, whatever its outcome. *)
Lemma fetchLoop_log (fuel : nat) :
  forall i n (w : World St),
  exists tr,
    events (snd (fetchLoop K net latency ids onItem fuel i n w)) = events w ++ tr /\
    chunked K tr /\ dones_of tr = [].
Proof.
  induction fuel as [|fuel IH]; intros i n w.
  - exists []. simpl. rewrite app_nil_r. repeat split. constructor.
  - cbn [fetchLoop]. destruct (i <? List.length ids).
    + set (batchIds := slice ids i (i + K)).
      destruct (forEach_run (map (fetched net) batchIds) n
                  {| user := user w; events := events w ++ chunk_log latency batchIds |})
        as (handed & Heq & _).
      cbn [user events] in Heq.
      unfold bind at 1. rewrite awaitBatch_eq.
      unfold bind at 1. rewrite Heq.
      assert (Hchunk : forall rest, chunked K rest -> dones_of rest = [] ->
                chunked K (chunk_log latency batchIds ++ map EvItem handed ++ rest) /\
                dones_of (chunk_log latency batchIds ++ map EvItem handed ++ rest) = []).
      { intros rest Hrest Hd. unfold chunk_log. rewrite <- app_assoc. split.
        - apply chunked_chunk; auto using arrival_perm. apply slice_length.
        - rewrite !dones_of_app, Hd.
          destruct (log_of_fetches batchIds) as (_ & _ & ->).
          destruct (log_of_settled (arrival latency batchIds)) as (_ & _ & ->).
          destruct (log_of_items handed) as (_ & _ & ->). reflexivity. }
      destruct (fst (run_items onItem (somes (map (fetched net) batchIds)) n (user w)))
        as [m|e|].
      * match goal with |- context [fetchLoop _ _ _ _ _ fuel (i + K) m ?w1] =>
          destruct (IH (i + K) m w1) as (tr & Hev & Hch & Hd) end.
        exists (chunk_log latency batchIds ++ map EvItem handed ++ tr).
        rewrite Hev. cbn [events]. rewrite <- !app_assoc.
        split; [reflexivity | now apply Hchunk].
      * exists (chunk_log latency batchIds ++ map EvItem handed ++ []).
        cbn [snd events]. rewrite app_nil_r, <- app_assoc.
        split; [reflexivity|]. rewrite <- (app_nil_r (map EvItem handed)).
        apply Hchunk; [constructor | reflexivity].
      * exists (chunk_log latency batchIds ++ map EvItem handed ++ []).
        cbn [snd events]. rewrite app_nil_r, <- app_assoc.
        split; [reflexivity|]. rewrite <- (app_nil_r (map EvItem handed)).
        apply Hchunk; [constructor | reflexivity].
    + exists []. simpl. rewrite app_nil_r. repeat split. constructor.
Qed.

(** The result of the loop when its fuel suffices. *)
Lemma fetchLoop_result (fuel : nat) :
  forall i n (w : World St),
    0 < K -> List.length ids - i + K <= fuel * K ->
    exists tr,
      fetchLoop K net latency ids onItem fuel i n w =
      (fst (run_items onItem (present net (skipn i ids)) n (user w)),
       {| user := snd (run_items onItem (present net (skipn i ids)) n (user w));
          events := events w ++ tr |}) /\
      (forall m, fst (run_items onItem (present net (skipn i ids)) n (user w)) = Ok m ->
                 items_of tr = present net (skipn i ids) /\
                 requests_of tr = map ITEM_API (skipn i ids)).
Proof.
  induction fuel as [|fuel IH]; intros i n w HK Hfuel; [lia|].
  cbn [fetchLoop]. destruct (Nat.ltb_spec i (List.length ids)) as [Hlt | Hge].
  - set (batchIds := slice ids i (i + K)).
    rewrite (skipn_slice ids i K). fold batchIds.
    rewrite present_app, run_items_app, map_app.
    destruct (forEach_run (map (fetched net) batchIds) n
                {| user := user w; events := events w ++ chunk_log latency batchIds |})
      as (handed & Heq & Hall).
    cbn [user events] in Heq, Hall.
    change (somes (map (fetched net) batchIds)) with (present net batchIds) in Heq, Hall.
    unfold bind at 1. rewrite awaitBatch_eq.
    unfold bind at 1. rewrite Heq.
    destruct (run_items onItem (present net batchIds) n (user w)) as [[m|e|] s1].
    + cbn [fst snd] in *.
      destruct (IH (i + K) m
                  {| user := s1;
                     events := (events w ++ chunk_log latency batchIds) ++ map EvItem handed |}
                  HK (@fuel_step _ _ _ _ Hlt Hfuel)) as (tr & Hrun & Hlog).
      cbn [user events] in Hrun, Hlog.
      exists (chunk_log latency batchIds ++ map EvItem handed ++ tr).
      split.
      * rewrite Hrun. now rewrite <- !app_assoc.
      * intros m' Hm'. destruct (Hlog m' Hm') as [Hi Hr].
        rewrite (Hall m eq_refl). unfold chunk_log.
        rewrite !items_of_app, !requests_of_app, Hi, Hr.
        destruct (log_of_fetches batchIds) as (-> & -> & _).
        destruct (log_of_settled (arrival latency batchIds)) as (-> & -> & _).
        destruct (log_of_items (present net batchIds)) as (-> & -> & _).
        cbn [app]. rewrite !app_nil_r. split; reflexivity.
    + exists (chunk_log latency batchIds ++ map EvItem handed).
      cbn [fst snd]. rewrite <- app_assoc. split; [reflexivity | discriminate].
    + exists (chunk_log latency batchIds ++ map EvItem handed).
      cbn [fst snd]. rewrite <- app_assoc. split; [reflexivity | discriminate].
  - exists []. rewrite skipn_all2 by lia. cbn. rewrite app_nil_r.
    destruct w; auto.
Qed.

Variable onDone : nat -> St -> Res unit * St.

(** A call that returned ran the loop to its end and then the completion
    callback, once, as its last action. *)
Lemma fetchItemsWithConcurrency_returned (w w' : World St) :
  fetchItemsWithConcurrency K net latency ids onItem onDone w = (Ok tt, w') ->
  exists n wl,
    fetchLoop K net latency ids onItem (S (List.length ids)) 0 0 w = (Ok n, wl) /\
    onDone n (user wl) = (Ok tt, user w') /\
    events w' = events wl ++ [EvDone n].
Proof.
  unfold fetchItemsWithConcurrency. unfold bind at 1.
  destruct (fetchLoop K net latency ids onItem (S (List.length ids)) 0 0 w)
    as [[n|e|] wl]; try discriminate.
  unfold bind, log, call. cbn [user events].
  destruct (onDone n (user wl)) as [[[]|e|] s'] eqn:Hdone; try discriminate.
  intros [= <-]. exists n, wl. auto.
Qed.

(** What the callbacks preserve, the call preserves, whatever its outcome. *)
Section Preservation.
Variable Inv : St -> Prop.
Hypothesis onItem_preserves : forall item s, Inv s -> Inv (snd (onItem item s)).
Hypothesis onDone_preserves : forall n s, Inv s -> Inv (snd (onDone n s)).

Lemma run_items_preserves (items : list Item) :
  forall n s, Inv s -> Inv (snd (run_items onItem items n s)).
Proof.
  induction items as [|item rest IH]; intros n s Hs; [exact Hs|].
  cbn [run_items]. pose proof (onItem_preserves item Hs) as Hs'.
  destruct (onItem item s) as [[valid|e|] s']; auto.
Qed.

Lemma fetchLoop_preserves (fuel : nat) :
  forall i n (w : World St),
    Inv (user w) -> Inv (user (snd (fetchLoop K net latency ids onItem fuel i n w))).
Proof.
  induction fuel as [|fuel IH]; intros i n w Hw; [exact Hw|].
  cbn [fetchLoop]. destruct (i <? List.length ids); [|exact Hw].
  unfold bind at 1. rewrite awaitBatch_eq. unfold bind at 1.
  destruct (forEach_run (map (fetched net) (slice ids i (i + K))) n
              {| user := user w;
                 events := events w ++ chunk_log latency (slice ids i (i + K)) |})
    as (handed & Heq & _).
  rewrite Heq. cbn [user].
  pose proof (run_items_preserves (somes (map (fetched net) (slice ids i (i + K)))) n Hw)
    as Hs.
  destruct (fst (run_items onItem (somes (map (fetched net) (slice ids i (i + K)))) n
                   (user w))); auto.
Qed.

Lemma fetchItemsWithConcurrency_preserves (w : World St) :
  Inv (user w) ->
  Inv (user (snd (fetchItemsWithConcurrency K net latency ids onItem onDone w))).
Proof.
  intros Hw. unfold fetchItemsWithConcurrency. unfold bind at 1.
  pose proof (fetchLoop_preserves (S (List.length ids)) 0 0 w Hw) as Hl.
  destruct (fetchLoop K net latency ids onItem (S (List.length ids)) 0 0 w)
    as [[n|e|] wl]; auto.
  unfold bind, log, call. cbn [user events snd] in *.
  pose proof (onDone_preserves n Hl) as Hd.
  destruct (onDone n (user wl)) as [[[]|e|] s']; auto.
Qed.
End Preservation.

(** The result and the callbacks' state after the call do not depend on
    the latencies: they are those of the callbacks run over the fetched
    items in the order of the ids. *)
Lemma fetchItemsWithConcurrency_outcome (w : World St) :
  0 < K ->
  fst (fetchItemsWithConcurrency K net latency ids onItem onDone w) =
    fst (batch_outcome onItem onDone (present net ids) (user w)) /\
  user (snd (fetchItemsWithConcurrency K net latency ids onItem onDone w)) =
    snd (batch_outcome onItem onDone (present net ids) (user w)).
Proof.
  intros HK.
  destruct (@fetchLoop_result (S (List.length ids)) 0 0 w HK ltac:(nia))
    as (tr & Hloop & _).
  cbn [skipn] in Hloop.
  unfold fetchItemsWithConcurrency, batch_outcome, bind, log, call.
  rewrite Hloop.
  destruct (run_items onItem (present net ids) 0 (user w)) as [[n|e|] s1];
    cbn [fst snd user events]; try (split; reflexivity).
  destruct (onDone n s1) as [[[]|e|] s']; split; reflexivity.
Qed.

(** The log of the call, whatever the callbacks do and however it ends. *)
Lemma fetchItemsWithConcurrency_log (w : World St) :
  exists tr,
    events (snd (fetchItemsWithConcurrency K net latency ids onItem onDone w))
      = events w ++ tr /\
    chunked K tr.
Proof.
  destruct (fetchLoop_log (S (List.length ids)) 0 0 w) as (tr & Hev & Hch & Hd).
  unfold fetchItemsWithConcurrency. unfold bind at 1.
  destruct (fetchLoop K net latency ids onItem (S (List.length ids)) 0 0 w)
    as [[n|e|] wl]; cbn [snd] in *; try (exists tr; split; assumption).
  exists (tr ++ [EvDone n]). split; [|now apply chunked_snoc_done].
  unfold bind, log, call. cbn [user events].
  destruct (onDone n (user wl)) as [[[]|e|] s']; cbn [snd events];
    now rewrite Hev, app_assoc.
Qed.

(** A call that returns has requested every id of the sequence, in order. *)
Lemma fetchItemsWithConcurrency_requests (w : World St) (tr : list Event) :
  0 < K ->
  fst (fetchItemsWithConcurrency K net latency ids onItem onDone w) = Ok tt ->
  events (snd (fetchItemsWithConcurrency K net latency ids onItem onDone w))
    = events w ++ tr ->
  requests_of tr = map ITEM_API ids.
Proof.
  intros HK.
  destruct (@fetchLoop_result (S (List.length ids)) 0 0 w HK ltac:(nia))
    as (tr0 & Hloop & Hlog).
  cbn [skipn] in Hloop, Hlog.
  unfold fetchItemsWithConcurrency, bind, log, call. rewrite Hloop.
  destruct (run_items onItem (present net ids) 0 (user w)) as [[n|e|] s1];
    cbn [fst snd user events] in *; try discriminate.
  destruct (Hlog n eq_refl) as [_ Hreq].
  destruct (onDone n s1) as [[[]|e|] s']; cbn [fst snd events]; try discriminate.
  intros _ Hev. rewrite <- app_assoc in Hev. apply app_inv_head in Hev. subst tr.
  rewrite requests_of_app, Hreq. cbn. now rewrite app_nil_r.
Qed.

(** The whole call, for callbacks that run to the end on the fetched items. *)
Lemma fetchItemsWithConcurrency_result (w : World St) n s s' :
  0 < K ->
  run_items onItem (present net ids) 0 (user w) = (Ok n, s) ->
  onDone n s = (Ok tt, s') ->
  exists tr,
    fetchItemsWithConcurrency K net latency ids onItem onDone w =
    (Ok tt, {| user := s'; events := events w ++ tr ++ [EvDone n] |}) /\
    items_of tr = present net ids /\
    requests_of tr = map ITEM_API ids /\
    dones_of tr = [] /\
    chunked K (tr ++ [EvDone n]).
Proof.
  intros HK Hrun Hdone.
  destruct (@fetchLoop_result (S (List.length ids)) 0 0 w HK ltac:(nia))
    as (tr & Hloop & Hlog).
  destruct (fetchLoop_log (S (List.length ids)) 0 0 w) as (tr' & Hev & Hch & Hd).
  cbn [skipn] in Hloop, Hlog. rewrite Hrun in Hloop, Hlog. cbn [fst snd] in Hloop, Hlog.
  rewrite Hloop in Hev. cbn [snd events] in Hev. apply app_inv_head in Hev. subst tr'.
  destruct (Hlog n eq_refl) as [Hi Hr].
  exists tr. repeat split; auto.
  - unfold fetchItemsWithConcurrency.
    rewrite (@bind_Ok _ _ _ _ _ _ _ _ Hloop). unfold bind, log, call. cbn [user events].
    rewrite Hdone. now rewrite <- app_assoc.
  - now apply chunked_snoc_done.
Qed.
End FetcherFacts.

(** ** The validity check and the item callback *)

Lemma truthy_spec (s : option string) :
  truthy s = true <-> exists u, s = Some u /\ u <> EmptyString.
Proof.
  destruct s as [u|]; simpl.
  - rewrite negb_true_iff. split.
    + intros Hne. exists u. split; [reflexivity|].
      intros ->. now rewrite String.eqb_refl in Hne.
    + intros (u' & [= <-] & Hne). now apply String.eqb_neq.
  - split; [discriminate | intros (u & Hu & _); discriminate].
Qed.

Lemma isValid_spec (cst : Constants) (feed : Feed) (item : Item) :
  isValid cst feed item = true <->
  item_type item = "story" /\
  (exists u, item_url item = Some u /\ u <> EmptyString) /\
  (feed = Latest -> (MIN_SCORE_LATEST cst <= score_or_0 (item_score item))%Z).
Proof.
  destruct feed; unfold isValid; rewrite ?andb_true_iff, String.eqb_eq, truthy_spec.
  - split; [intros [Ht Hu]; repeat split; auto; discriminate | intros (Ht & Hu & _); auto].
  - rewrite Z.geb_le. split.
    + intros [[Ht Hu] Hs]; auto.
    + intros (Ht & Hu & Hs); auto.
Qed.

Lemma onItemFetched_invalid (cst : Constants) (feed : Feed) (item : Item) (c : Controller) :
  isValid cst feed item = false -> onItemFetched cst feed item c = (Ok false, c).
Proof. unfold onItemFetched. now intros ->. Qed.

Lemma onItemFetched_valid (cst : Constants) (feed : Feed) (item : Item) (c : Controller) t :
  isValid cst feed item = true -> item_title item = Some t ->
  onItemFetched cst feed item c =
  (Ok true, appendChild (node_of feed item (replace_special t)) c).
Proof. unfold onItemFetched, renderNewsItem. now intros -> ->. Qed.

Lemma onItemFetched_untitled (cst : Constants) (feed : Feed) (item : Item) (c : Controller) :
  isValid cst feed item = true -> item_title item = None ->
  onItemFetched cst feed item c = (Throw TypeError, c).
Proof. unfold onItemFetched, renderNewsItem. now intros -> ->. Qed.

Lemma onItemFetched_globals (cst : Constants) (feed : Feed) (item : Item) (c : Controller) :
  globals (snd (onItemFetched cst feed item c)) = globals c.
Proof.
  unfold onItemFetched, renderNewsItem.
  destruct (isValid cst feed item); [|reflexivity].
  destruct (escapeHTML (item_title item)); reflexivity.
Qed.

Lemma add_nodes_nil (c : Controller) : add_nodes [] c = c.
Proof. destruct c. unfold add_nodes. simpl. now rewrite app_nil_r. Qed.

Lemma add_nodes_appendChild (n : Node) (nodes : list Node) (c : Controller) :
  add_nodes nodes (appendChild n c) = add_nodes (n :: nodes) c.
Proof. unfold add_nodes, appendChild. simpl. now rewrite <- app_assoc. Qed.

(** On items none of which makes the render function throw, the callback
    renders the valid ones in order and counts them. *)
Lemma run_items_safe (cst : Constants) (feed : Feed) (items : list Item) :
  forall n c,
    forallb (fun item => negb (crashes cst feed item)) items = true ->
    run_items (onItemFetched cst feed) items n c =
    (Ok (n + List.length (filter (isValid cst feed) items)),
     add_nodes (nodes_of cst feed items) c).
Proof.
  induction items as [|item rest IH]; intros n c Hsafe.
  - simpl. now rewrite add_nodes_nil, Nat.add_0_r.
  - cbn [forallb] in Hsafe. apply andb_true_iff in Hsafe as [Hitem Hrest].
    unfold crashes in Hitem. cbn [run_items filter nodes_of flat_map].
    destruct (isValid cst feed item) eqn:Hvalid.
    + destruct (item_title item) as [t|] eqn:Htitle; [|discriminate].
      rewrite (@onItemFetched_valid cst feed item c t Hvalid Htitle), (IH _ _ Hrest).
      cbn [List.length app]. rewrite add_nodes_appendChild.
      f_equal. f_equal. lia.
    + rewrite (@onItemFetched_invalid cst feed item c Hvalid), (IH _ _ Hrest). reflexivity.
Qed.

(** ** One page *)

Lemma fetchPage_globals cst feed net latency batchIds (w : World Controller) :
  globals (user (snd (fetchPage cst feed net latency batchIds w))) = globals (user w).
Proof.
  unfold fetchPage.
  apply fetchItemsWithConcurrency_preserves
    with (Inv := fun c => globals c = globals (user w)); [| |reflexivity].
  - intros item s Hs. now rewrite onItemFetched_globals.
  - intros n s Hs. exact Hs.
Qed.

Lemma fetchPage_safe cst feed net latency batchIds (w : World Controller) :
  0 < MAX_CONCURRENT_REQUESTS cst ->
  page_safe cst feed net batchIds = true ->
  exists tr,
    fetchPage cst feed net latency batchIds w =
    (Ok tt,
     {| user := updateLoadButton cst
                  (add_nodes (nodes_of cst feed (present net batchIds)) (user w));
        events := events w ++ tr ++ [EvDone (valid_count cst feed net batchIds)] |}) /\
    items_of tr = present net batchIds /\
    requests_of tr = map ITEM_API batchIds /\
    dones_of tr = [] /\
    chunked (MAX_CONCURRENT_REQUESTS cst) (tr ++ [EvDone (valid_count cst feed net batchIds)]).
Proof.
  intros HK Hsafe. unfold fetchPage, valid_count.
  apply fetchItemsWithConcurrency_result
    with (s := add_nodes (nodes_of cst feed (present net batchIds)) (user w)); auto.
  now rewrite (@run_items_safe cst feed _ 0 (user w) Hsafe).
Qed.

Lemma loadMore_enter_open (cst : Constants) (c : Controller) :
  newsLoading c = false -> exhausted cst c = false ->
  loadMore_enter cst c = (Some (page_ids cst c), set_loading true c).
Proof. unfold loadMore_enter, exhausted. now intros -> ->. Qed.

Lemma loadMore_enter_closed (cst : Constants) (c : Controller) :
  newsLoading c = true \/ exhausted cst c = true -> loadMore_enter cst c = (None, c).
Proof.
  unfold loadMore_enter, exhausted. intros [-> | ->]; [reflexivity|].
  now rewrite orb_true_r.
Qed.

(** A page whose items do not make the render function throw is fetched and
    rendered to the end, and the call returns. *)
Lemma loadMore_completes cst feed net latency (w : World Controller) :
  0 < MAX_CONCURRENT_REQUESTS cst ->
  newsLoading (user w) = false -> exhausted cst (user w) = false ->
  page_safe cst feed net (page_ids cst (user w)) = true ->
  exists tr,
    loadMore cst feed net latency w =
    (Ok tt,
     {| user := page_done cst feed net (user w);
        events := events w ++ tr
                  ++ [EvDone (valid_count cst feed net (page_ids cst (user w)))] |}) /\
    items_of tr = present net (page_ids cst (user w)) /\
    requests_of tr = map ITEM_API (page_ids cst (user w)) /\
    dones_of tr = [] /\
    chunked (MAX_CONCURRENT_REQUESTS cst)
      (tr ++ [EvDone (valid_count cst feed net (page_ids cst (user w)))]).
Proof.
  intros HK Hload Hopen Hsafe.
  destruct (@fetchPage_safe cst feed net latency (page_ids cst (user w))
              {| user := set_loading true (user w); events := events w |} HK Hsafe)
    as (tr & Hrun & Hlog).
  exists tr. split; [|exact Hlog].
  unfold loadMore. rewrite (@loadMore_enter_open cst _ Hload Hopen), Hrun.
  reflexivity.
Qed.

(** ** The guard of the controllers *)

Lemma exhausted_iff_ceil (cst : Constants) (c : Controller) :
  0 < ITEMS_PER_PAGE cst ->
  exhausted cst c = true <->
  ceil_div (List.length (newsIds c)) (ITEMS_PER_PAGE cst) <= newsPage c.
Proof.
  intros HP. unfold exhausted, ceil_div. rewrite Nat.leb_le.
  set (L := List.length (newsIds c)). set (P := ITEMS_PER_PAGE cst) in *.
  set (p := newsPage c). split.
  - intros Hle. apply Nat.lt_succ_r. apply Nat.Div0.div_lt_upper_bound; nia.
  - intros Hle.
    assert (Hlt : L + P - 1 < P * S ((L + P - 1) / P))
      by (apply Nat.mul_succ_div_gt; lia).
    assert (Hup : P * S ((L + P - 1) / P) <= P * S p) by (apply Nat.mul_le_mono_l; lia).
    nia.
Qed.

(** What a call that starts with the latch open leaves in the globals. *)
Lemma loadMore_globals cst feed net latency (w w' : World Controller) r :
  loadMore cst feed net latency w = (r, w') ->
  newsLoading (user w) = false ->
  newsIds (user w') = newsIds (user w) /\
  (r = Ok tt ->
   newsLoading (user w') = false /\
   newsPage (user w') =
     if exhausted cst (user w) then newsPage (user w) else newsPage (user w) + 1).
Proof.
  intros Hrun Hload. unfold loadMore in Hrun.
  destruct (exhausted cst (user w)) eqn:Hex.
  - rewrite (@loadMore_enter_closed cst (user w) (or_intror Hex)) in Hrun.
    injection Hrun as <- <-. auto.
  - rewrite (@loadMore_enter_open cst (user w) Hload Hex) in Hrun.
    pose proof (fetchPage_globals cst feed net latency (page_ids cst (user w))
                  {| user := set_loading true (user w); events := events w |}) as Hg.
    destruct (fetchPage cst feed net latency (page_ids cst (user w))
                {| user := set_loading true (user w); events := events w |})
      as [[[]|e|] w1]; injection Hrun as <- <-;
      unfold globals in Hg; cbn in Hg; injection Hg as Hids Hpage Hl.
    + cbn. repeat split; auto; lia.
    + split; [auto | discriminate].
    + split; [auto | discriminate].
Qed.

Lemma advances_globals cst feed (envs : list Env) :
  forall (w w' : World Controller),
    0 < ITEMS_PER_PAGE cst ->
    newsLoading (user w) = false ->
    newsPage (user w) <= ceil_div (List.length (newsIds (user w))) (ITEMS_PER_PAGE cst) ->
    advances cst feed envs w = (Ok tt, w') ->
    newsIds (user w') = newsIds (user w) /\
    newsLoading (user w') = false /\
    newsPage (user w') =
      Nat.min (newsPage (user w) + List.length envs)
              (ceil_div (List.length (newsIds (user w))) (ITEMS_PER_PAGE cst)).
Proof.
  induction envs as [|e rest IH]; intros w w' HP Hload Hle Hrun.
  - injection Hrun as <-. cbn [List.length]. repeat split; auto. lia.
  - cbn [advances] in Hrun. unfold bind at 1 in Hrun.
    destruct (loadMore cst feed (env_net e) (env_latency e) w) as [[[]|x|] w1] eqn:Hcall;
      try discriminate.
    destruct (loadMore_globals _ _ _ _ _ Hcall Hload) as (Hids & Hok).
    destruct (Hok eq_refl) as (Hload1 & Hpage1).
    pose proof (@exhausted_iff_ceil cst (user w) HP) as Hex.
    assert (Hle1 : newsPage (user w1)
                   <= ceil_div (List.length (newsIds (user w1))) (ITEMS_PER_PAGE cst)).
    { rewrite Hids, Hpage1. destruct (exhausted cst (user w)); [lia|].
      assert (~ ceil_div (List.length (newsIds (user w))) (ITEMS_PER_PAGE cst)
                <= newsPage (user w)) by (rewrite <- Hex; discriminate).
      lia. }
    destruct (IH w1 w' HP Hload1 Hle1 Hrun) as (Hids' & Hload' & Hpage').
    rewrite Hids', Hpage', Hids, Hpage1. cbn [List.length].
    repeat split; auto.
    destruct (exhausted cst (user w)).
    + assert (ceil_div (List.length (newsIds (user w))) (ITEMS_PER_PAGE cst)
              <= newsPage (user w)) by now apply Hex.
      lia.
    + lia.
Qed.

Lemma page_safe_slice cst feed net (ids : list Z) (i j : nat) :
  page_safe cst feed net ids = true -> page_safe cst feed net (slice ids i j) = true.
Proof.
  unfold page_safe, slice. intros Hsafe.
  rewrite <- (firstn_skipn i ids), present_app, forallb_app in Hsafe.
  apply andb_true_iff in Hsafe as [_ Hsafe].
  rewrite <- (firstn_skipn (j - i) (skipn i ids)), present_app, forallb_app in Hsafe.
  now apply andb_true_iff in Hsafe as [Hsafe _].
Qed.

(** Calls on pages that do not make the render function throw all return. *)
Lemma advances_complete cst feed (envs : list Env) :
  forall (w : World Controller),
    0 < MAX_CONCURRENT_REQUESTS cst ->
    newsLoading (user w) = false ->
    Forall (fun e => page_safe cst feed (env_net e) (newsIds (user w)) = true) envs ->
    exists w', advances cst feed envs w = (Ok tt, w').
Proof.
  induction envs as [|e rest IH]; intros w HK Hload Hsafe.
  - exists w. reflexivity.
  - inversion Hsafe as [|e' rest' He Hrest]; subst.
    cbn [advances]. destruct (exhausted cst (user w)) eqn:Hex.
    + assert (Hcall : loadMore cst feed (env_net e) (env_latency e) w = (Ok tt, w)).
      { unfold loadMore.
        now rewrite (@loadMore_enter_closed cst (user w) (or_intror Hex)). }
      rewrite (@bind_Ok _ _ _ _ _ _ _ _ Hcall). now apply IH.
    + destruct (@loadMore_completes cst feed (env_net e) (env_latency e) w HK Hload Hex
                  (page_safe_slice _ _ _ _ _ _ He)) as (tr & Hcall & _).
      rewrite (@bind_Ok _ _ _ _ _ _ _ _ Hcall). apply IH; auto.
Qed.

(** ** Initialization and the two views of a call *)

(** [initialize...News] with a non-empty id list stores it, resets the cursor
    and makes the first call; with an empty list, which is also what a failed
    request yields, it only returns. *)
Lemma initializeNews_cases cst feed net latency (w : World Controller) :
  exists ids,
    outcome (fetchFromAPI net (feed_api feed)) = Ok ids /\
    initializeNews cst feed net latency w =
      match ids with
      | [] => (Ok tt, {| user := user w;
                         events := events w ++ [EvFetch (feed_api feed);
                                                EvSettled (feed_api feed)] |})
      | _ :: _ =>
          loadMore cst feed net latency
            {| user := set_page 0 (set_ids ids (user w));
               events := events w ++ [EvFetch (feed_api feed);
                                      EvSettled (feed_api feed)] |}
      end.
Proof.
  destruct (api_client_settles net (feed_api feed)) as [ids Hids].
  exists ids. split; [exact Hids|].
  unfold initializeNews, bind, log, call, ret. cbn [issued fetchFromAPI map app user events].
  rewrite Hids. destruct ids as [|id rest]; reflexivity.
Qed.

(** A call that passes the guard and returns is a suspension followed by the
    settlement of its fetch. *)
Lemma loadMore_as_steps cst feed net latency (w w' : World Controller) :
  newsLoading (user w) = false -> exhausted cst (user w) = false ->
  loadMore cst feed net latency w = (Ok tt, w') ->
  exists cfg,
    step cst feed {| world := w; suspended := [] |} LAdvance cfg /\
    step cst feed cfg (LSettle (Ok tt)) {| world := w'; suspended := [] |}.
Proof.
  intros Hload Hopen Hrun. unfold loadMore in Hrun.
  pose proof (@loadMore_enter_open cst (user w) Hload Hopen) as Henter.
  rewrite Henter in Hrun.
  destruct (fetchPage cst feed net latency (page_ids cst (user w))
              {| user := set_loading true (user w); events := events w |})
    as [[[]|e|] w1] eqn:Hfetch; try discriminate.
  injection Hrun as <-.
  exists {| world := {| user := set_loading true (user w); events := events w |};
            suspended := [page_ids cst (user w)] |}.
  split.
  - apply (@step_suspend cst feed {| world := w; suspended := [] |}
             (page_ids cst (user w)) (set_loading true (user w))). exact Henter.
  - apply (@step_resume cst feed
             {| world := {| user := set_loading true (user w); events := events w |};
                suspended := [page_ids cst (user w)] |}
             (page_ids cst (user w)) [] {| env_net := net; env_latency := latency |} w1);
      [reflexivity | exact Hfetch].
Qed.

(** * The claims *)

(** C1: from cursor 0, a feed whose list has L ids is exhausted after exactly
    ceil(L / page size) calls of [loadMore...News] that returned: after [n]
    such calls the cursor is [min n (ceil (L / P))], so the guard
    [page * ITEMS_PER_PAGE >= ids.length] holds exactly when [n] has reached
    that number; once it holds, a further call returns at once and leaves the
    globals, the page and the log of requests as they are.  Calls on pages
    whose items do not make the render function throw do return. *)
Theorem exhausted_after_ceil_calls cst feed (envs : list Env) (w : World Controller) :
  0 < ITEMS_PER_PAGE cst ->
  newsPage (user w) = 0 ->
  newsLoading (user w) = false ->
  (forall w',
      advances cst feed envs w = (Ok tt, w') ->
      newsPage (user w') =
        Nat.min (List.length envs)
                (ceil_div (List.length (newsIds (user w))) (ITEMS_PER_PAGE cst)) /\
      (exhausted cst (user w') = true <->
       ceil_div (List.length (newsIds (user w))) (ITEMS_PER_PAGE cst) <= List.length envs) /\
      (exhausted cst (user w') = true ->
       forall net latency, loadMore cst feed net latency w' = (Ok tt, w'))) /\
  (0 < MAX_CONCURRENT_REQUESTS cst ->
   Forall (fun e => page_safe cst feed (env_net e) (newsIds (user w)) = true) envs ->
   exists w', advances cst feed envs w = (Ok tt, w')).
Proof.
  intros HP Hpage Hload. split.
  - intros w' Hrun.
    destruct (@advances_globals cst feed envs w w' HP Hload ltac:(lia) Hrun)
      as (Hids & Hload' & Hpage').
    rewrite Hpage in Hpage'. cbn [Nat.add] in Hpage'.
    repeat split.
    + exact Hpage'.
    + intros Hex. apply (@exhausted_iff_ceil cst (user w') HP) in Hex.
      rewrite Hids, Hpage' in Hex. lia.
    + intros Hle. apply (@exhausted_iff_ceil cst (user w') HP).
      rewrite Hids, Hpage'. lia.
    + intros Hex net latency. unfold loadMore.
      now rewrite (@loadMore_enter_closed cst (user w') (or_intror Hex)).
  - intros HK Hsafe. now apply advances_complete.
Qed.

Lemma exhausted_after_ceil_calls_witness :
  ceil_div (List.length ids7) (ITEMS_PER_PAGE script_js) = 2 /\
  exists w',
    advances script_js Best [env_stories; env_stories] (loaded ids7) = (Ok tt, w') /\
    newsPage (user w') = 2 /\
    exhausted script_js (user w') = true /\
    loadMore script_js Best net_down (fun _ => 0) w' = (Ok tt, w').
Proof.
  split; [reflexivity|].
  assert (HP : 0 < ITEMS_PER_PAGE script_js) by (simpl; lia).
  assert (HK : 0 < MAX_CONCURRENT_REQUESTS script_js) by (simpl; lia).
  destruct (@exhausted_after_ceil_calls script_js Best [env_stories; env_stories]
              (loaded ids7) HP eq_refl eq_refl) as [Hafter Hreturns].
  destruct (Hreturns HK) as [w' Hrun].
  { repeat constructor. }
  exists w'. destruct (Hafter w' Hrun) as (Hpage & Hex & Hnoop).
  assert (Hceil : ceil_div (List.length (newsIds (user (loaded ids7))))
                    (ITEMS_PER_PAGE script_js) <= 2) by (vm_compute; lia).
  repeat split.
  - exact Hrun.
  - exact Hpage.
  - apply Hex. exact Hceil.
  - apply Hnoop. apply Hex. exact Hceil.
Defined.

(** C5: while the loading flag of a feed is set, a call of [loadMore...News]
    returns at once: ids, cursor, flag, container, button and the log of
    requests are what they were, and no call gets suspended. *)
Theorem advance_while_loading_is_noop cst feed net latency (w : World Controller)
    (pending : list (list Z)) :
  newsLoading (user w) = true ->
  loadMore cst feed net latency w = (Ok tt, w) /\
  loadMore_enter cst (user w) = (None, user w) /\
  (forall cfg', step cst feed {| world := w; suspended := pending |} LAdvance cfg' ->
                cfg' = {| world := w; suspended := pending |}).
Proof.
  intros Hload.
  pose proof (@loadMore_enter_closed cst (user w) (or_introl Hload)) as Henter.
  repeat split.
  - unfold loadMore. now rewrite Henter.
  - exact Henter.
  - intros cfg' Hstep. inversion Hstep as [cfg Hret | cfg b c Hsus | |]; subst.
    + reflexivity.
    + cbn [world user] in Hsus. rewrite Henter in Hsus. discriminate.
Qed.

Lemma advance_while_loading_is_noop_witness :
  newsLoading (user (loading ids7)) = true /\
  loadMore script_js Best net_stories (fun _ => 0) (loading ids7) = (Ok tt, loading ids7).
Proof.
  assert (Hload : newsLoading (user (loading ids7)) = true) by reflexivity.
  split; [exact Hload|].
  exact (proj1 (@advance_while_loading_is_noop script_js Best net_stories (fun _ => 0)
                  (loading ids7) [] Hload)).
Defined.

(** ** The load button *)

Lemma loadMore_returned cst feed net latency (w w' : World Controller) :
  newsLoading (user w) = false -> exhausted cst (user w) = false ->
  loadMore cst feed net latency w = (Ok tt, w') ->
  exists n wl,
    globals (user wl) = (newsIds (user w), newsPage (user w), true) /\
    user w' = loadMore_resume (updateLoadButton cst (user wl)) /\
    events w' = events wl ++ [EvDone n].
Proof.
  intros Hload Hopen Hrun. unfold loadMore in Hrun.
  rewrite (@loadMore_enter_open cst (user w) Hload Hopen) in Hrun.
  destruct (fetchPage cst feed net latency (page_ids cst (user w))
              {| user := set_loading true (user w); events := events w |})
    as [[[]|e|] wf] eqn:Hfetch; try discriminate.
  injection Hrun as <-. unfold fetchPage in Hfetch.
  destruct (fetchItemsWithConcurrency_returned _ _ _ _ _ _ _ Hfetch)
    as (n & wl & Hloop & Hdone & Hev).
  exists n, wl. cbn [user events]. repeat split.
  - pose proof (@fetchLoop_preserves (MAX_CONCURRENT_REQUESTS cst) net latency Controller
                  (page_ids cst (user w)) (onItemFetched cst feed)
                  (fun c => globals c = (newsIds (user w), newsPage (user w), true))
                  (fun item s Hs => eq_trans (onItemFetched_globals cst feed item s) Hs)
                  (S (List.length (page_ids cst (user w)))) 0 0
                  {| user := set_loading true (user w); events := events w |} eq_refl) as Hg.
    now rewrite Hloop in Hg.
  - unfold onBatchComplete in Hdone. now injection Hdone as <-.
  - exact Hev.
Qed.

(** C2, as the spec words it, evaluates [(cursor + 1) * pageSize >= length]
    at the incremented cursor.  On seven ids the first page leaves cursor 1,
    and [(1 + 1) * 6 >= 7] holds, yet the button is shown. *)
Lemma button_not_from_incremented_cursor :
  exists w',
    loadMoreBestNews net_stories (fun _ => 0) (loaded ids7) = (Ok tt, w') /\
    List.length (newsIds (user w')) <= (newsPage (user w') + 1) * ITEMS_PER_PAGE script_js /\
    loadBtn (user w') = display_block.
Proof.
  eexists. split; [vm_compute; reflexivity|].
  split; [vm_compute; lia | reflexivity].
Qed.

(** C2, amended: the completion callback runs before the cursor is
    incremented, so the button is set from [(page + 1) * ITEMS_PER_PAGE <
    ids.length] at the cursor the page was fetched with.  After the call the
    cursor is one more, hence the button is hidden exactly when the ids
    attempted so far, [page' * ITEMS_PER_PAGE] at the new cursor [page'],
    reach or exceed the length of the id list.  A page whose items do not
    make the render function throw is fetched to the end. *)
Theorem button_hidden_iff_attempted cst feed net latency (w : World Controller) :
  newsLoading (user w) = false ->
  exhausted cst (user w) = false ->
  (forall w',
      loadMore cst feed net latency w = (Ok tt, w') ->
      newsPage (user w') = newsPage (user w) + 1 /\
      loadBtn (user w') =
        (if (newsPage (user w) + 1) * ITEMS_PER_PAGE cst <? List.length (newsIds (user w))
         then display_block else display_none) /\
      (loadBtn (user w') = display_none <->
       List.length (newsIds (user w')) <= newsPage (user w') * ITEMS_PER_PAGE cst)) /\
  (0 < MAX_CONCURRENT_REQUESTS cst ->
   page_safe cst feed net (page_ids cst (user w)) = true ->
   exists w', loadMore cst feed net latency w = (Ok tt, w')).
Proof.
  intros Hload Hopen. split.
  - intros w' Hrun.
    destruct (loadMore_returned _ _ _ _ _ Hload Hopen Hrun) as (n & wl & Hg & Hw' & _).
    unfold globals in Hg. injection Hg as Hids Hpage Hflag.
    rewrite Hw'. unfold loadMore_resume, updateLoadButton, set_loading, set_page, set_display.
    cbn [newsIds newsPage newsLoading container loadBtn].
    rewrite Hids, Hpage. split; [reflexivity|]. split; [reflexivity|].
    destruct (Nat.ltb_spec ((newsPage (user w) + 1) * ITEMS_PER_PAGE cst)
                (List.length (newsIds (user w)))); split; intros Hside;
      try discriminate; try lia; reflexivity.
  - intros HK Hsafe.
    destruct (@loadMore_completes cst feed net latency w HK Hload Hopen Hsafe)
      as (tr & Hrun & _).
    eauto.
Qed.

Lemma button_hidden_iff_attempted_witness :
  exists w',
    loadMore script_js Best net_stories (fun _ => 0) (loaded ids7) = (Ok tt, w') /\
    newsPage (user w') = 1 /\
    loadBtn (user w') = display_block.
Proof.
  assert (HK : 0 < MAX_CONCURRENT_REQUESTS script_js) by (simpl; lia).
  destruct (@button_hidden_iff_attempted script_js Best net_stories (fun _ => 0)
              (loaded ids7) eq_refl eq_refl) as [Hafter Hreturns].
  destruct (Hreturns HK eq_refl) as [w' Hrun].
  exists w'. destruct (Hafter w' Hrun) as (Hpage & Hbtn & _).
  repeat split.
  - exact Hrun.
  - exact Hpage.
  - exact Hbtn.
Defined.

(** ** The completion of a batch *)

Lemma run_items_total {St} (onItem : Item -> St -> Res bool * St) (items : list Item) :
  (forall item s, exists valid s', onItem item s = (Ok valid, s')) ->
  forall n s, exists m s', run_items onItem items n s = (Ok m, s').
Proof.
  intros Hok. induction items as [|item rest IH]; intros n s.
  - exists n, s. reflexivity.
  - cbn [run_items]. destruct (Hok item s) as (valid & s' & ->). apply IH.
Qed.




(** ** The item callback *)

Lemma nodes_of_filter (cst : Constants) (feed : Feed) (items : list Item) :
  nodes_of cst feed items = nodes_of cst feed (filter (isValid cst feed) items).
Proof.
  induction items as [|item rest IH]; [reflexivity|].
  cbn [nodes_of flat_map filter]. fold (nodes_of cst feed rest).
  destruct (isValid cst feed item) eqn:Hvalid.
  - cbn [nodes_of flat_map]. rewrite Hvalid. fold (nodes_of cst feed (filter (isValid cst feed) rest)).
    now rewrite IH.
  - exact IH.
Qed.

(** C4, as stated, fails for a story whose URL is present and empty: the
    condition [item.url] is false for the empty string, so the callback
    returns false and nothing is rendered.  It also fails for a story that
    passes the check and has no title: the render function throws before the
    callback returns. *)
Lemma present_url_not_enough :
  item_type story_empty_url = "story" /\
  item_url story_empty_url <> None /\
  (forall feed c, onItemFetched script_js feed story_empty_url c = (Ok false, c)) /\
  (forall feed c, onItemFetched script_js feed story_untitled c = (Throw TypeError, c)).
Proof.
  repeat split.
  - discriminate.
  - intros [] c; reflexivity.
  - intros [] c; reflexivity.
Qed.

(** C4, amended: for an item with a title, the callback returns true and
    appends the node of the item exactly when the type is ['story'], the URL
    is present and not empty and, for the latest feed, the score (0 when
    absent) is at least [MIN_SCORE_LATEST]; an item that fails this test makes
    the callback return false and leaves the container as it is, with or
    without a title.  On a page whose items do not make the render function
    throw, the call returns, the container gains the nodes of the items that
    pass the test and no others, the completion callback receives their
    number, and the cursor is one more. *)
Theorem validate_then_render cst feed (item : Item) (c : Controller)
    net latency (w : World Controller) :
  (isValid cst feed item = true <-> accepted cst feed item) /\
  (forall t, item_title item = Some t ->
     (accepted cst feed item <->
      onItemFetched cst feed item c =
        (Ok true, appendChild (node_of feed item (replace_special t)) c))) /\
  (~ accepted cst feed item ->
   onItemFetched cst feed item c = (Ok false, c) /\ nodes_of cst feed [item] = []) /\
  (0 < MAX_CONCURRENT_REQUESTS cst ->
   newsLoading (user w) = false -> exhausted cst (user w) = false ->
   page_safe cst feed net (page_ids cst (user w)) = true ->
   exists tr,
     loadMore cst feed net latency w =
       (Ok tt,
        {| user := page_done cst feed net (user w);
           events := events w ++ tr
                     ++ [EvDone (valid_count cst feed net (page_ids cst (user w)))] |}) /\
     dones_of tr = [] /\
     newsPage (page_done cst feed net (user w)) = newsPage (user w) + 1 /\
     container (page_done cst feed net (user w)) =
       container (user w)
       ++ nodes_of cst feed (filter (isValid cst feed) (present net (page_ids cst (user w)))) /\
     valid_count cst feed net (page_ids cst (user w)) =
       List.length (filter (isValid cst feed) (present net (page_ids cst (user w))))).
Proof.
  pose proof (isValid_spec cst feed item) as Hspec.
  fold (accepted cst feed item) in Hspec.
  split; [exact Hspec|]. split; [|split].
  - intros t Ht. split.
    + intros Hacc. apply Hspec in Hacc. now apply onItemFetched_valid.
    + intros Hrun. apply Hspec.
      destruct (isValid cst feed item) eqn:Hvalid; [reflexivity|].
      rewrite (@onItemFetched_invalid cst feed item c Hvalid) in Hrun. discriminate.
  - intros Hnot.
    assert (Hvalid : isValid cst feed item = false).
    { destruct (isValid cst feed item); [|reflexivity]. exfalso. apply Hnot. now apply Hspec. }
    split; [now apply onItemFetched_invalid|].
    cbn [nodes_of flat_map]. now rewrite Hvalid.
  - intros HK Hload Hopen Hsafe.
    destruct (@loadMore_completes cst feed net latency w HK Hload Hopen Hsafe)
      as (tr & Hrun & _ & _ & Hd & _).
    exists tr. split; [exact Hrun|]. split; [exact Hd|]. split; [reflexivity|].
    split; [|reflexivity].
    cbn [page_done container]. f_equal. apply nodes_of_filter.
Qed.

Lemma validate_then_render_witness :
  accepted script_js Latest (story 1 (Some "Title") (Some "https://example.com") None) /\
  ~ accepted script_js Latest story_empty_url /\
  onItemFetched script_js Latest (story 1 (Some "Title") (Some "https://example.com") None)
    (user (loaded ids7)) =
    (Ok true,
     appendChild (ListEntry "Title" (Some 1700000000%Z) (Some "https://example.com"))
       (user (loaded ids7))) /\
  onItemFetched script_js Latest story_empty_url (user (loaded ids7)) =
    (Ok false, user (loaded ids7)) /\
  exists w',
    loadMore script_js Latest net_down (fun _ => 0) (loaded ids7) = (Ok tt, w') /\
    newsPage (user w') = 1 /\ container (user w') = [].
Proof.
  destruct (@validate_then_render script_js Latest
              (story 1 (Some "Title") (Some "https://example.com") None)
              (user (loaded ids7)) net_down (fun _ => 0) (loaded ids7))
    as (_ & Hiff & _ & Hpage).
  destruct (@validate_then_render script_js Latest story_empty_url
              (user (loaded ids7)) net_down (fun _ => 0) (loaded ids7))
    as (_ & _ & Hrej & _).
  assert (Hacc : accepted script_js Latest
                   (story 1 (Some "Title") (Some "https://example.com") None)).
  { split; [reflexivity|]. split.
    - eexists. split; [reflexivity | discriminate].
    - intros _. simpl. lia. }
  assert (Hnot : ~ accepted script_js Latest story_empty_url).
  { intros (_ & (u & Hu & Hne) & _). injection Hu as <-. now apply Hne. }
  assert (HK : 0 < MAX_CONCURRENT_REQUESTS script_js) by (simpl; lia).
  destruct (Hpage HK eq_refl eq_refl eq_refl) as (tr & Hrun & _ & Hcursor & Hnodes & _).
  split; [exact Hacc|]. split; [exact Hnot|].
  split; [exact (proj1 (Hiff _ eq_refl) Hacc)|].
  split; [exact (proj1 (Hrej Hnot))|].
  eexists. split; [exact Hrun|]. split; [exact Hcursor | exact Hnodes].
Defined.

(** ** Interleaved calls *)

Lemma loadMore_enter_Some (cst : Constants) (c c' : Controller) (batchIds : list Z) :
  loadMore_enter cst c = (Some batchIds, c') ->
  newsLoading c = false /\
  newsPage c * ITEMS_PER_PAGE cst < List.length (newsIds c) /\
  c' = set_loading true c.
Proof.
  unfold loadMore_enter. destruct (newsLoading c); [discriminate|].
  destruct (Nat.leb_spec (List.length (newsIds c)) (newsPage c * ITEMS_PER_PAGE cst));
    [discriminate|].
  cbn [orb]. intros [= _ <-]. auto.
Qed.

Lemma step_globals cst feed (cfg cfg' : Config) (l : Label) :
  step cst feed cfg l cfg' ->
  newsIds (user (world cfg')) = newsIds (user (world cfg)) /\
  newsPage (user (world cfg')) =
    match l with
    | LSettle (Ok _) => newsPage (user (world cfg)) + 1
    | _ => newsPage (user (world cfg))
    end.
Proof.
  intros Hstep.
  destruct Hstep as [cfg Hret | cfg b c Hsus | cfg b rest env w Hq Hrun | cfg b rest env e w Hq Hrun].
  - auto.
  - apply loadMore_enter_Some in Hsus as (_ & _ & ->). auto.
  - pose proof (fetchPage_globals cst feed (env_net env) (env_latency env) b (world cfg)) as Hg.
    rewrite Hrun in Hg. unfold globals in Hg. injection Hg as Hids Hpage _.
    cbn. rewrite Hids, Hpage. auto.
  - pose proof (fetchPage_globals cst feed (env_net env) (env_latency env) b (world cfg)) as Hg.
    rewrite Hrun in Hg. unfold globals in Hg. injection Hg as Hids Hpage _.
    cbn. auto.
Qed.

Lemma reachable_latch_inv cst feed (ids : list Z) (cfg : Config) :
  0 < ITEMS_PER_PAGE cst -> reachable cst feed ids cfg -> latch_inv cst ids cfg.
Proof.
  intros HP Hreach.
  induction Hreach as [w Hids Hpage Hload | cfg l cfg' Hreach IH Hstep].
  - unfold latch_inv. cbn. rewrite Hpage. repeat split; auto. lia.
  - destruct IH as (Hids & Hbound & Hlatch).
    destruct Hstep
      as [cfg Hret | cfg b c Hsus | cfg b rest env w Hq Hrun | cfg b rest env e w Hq Hrun].
    + unfold latch_inv. auto.
    + apply loadMore_enter_Some in Hsus as (Hopen & Hin & ->).
      destruct Hlatch as [Hnone | (_ & Hclosed & _)]; [|congruence].
      unfold latch_inv. cbn. rewrite Hnone. repeat split; auto.
      right. split; [exists b; reflexivity|]. split; [reflexivity|]. now rewrite <- Hids.
    + pose proof (fetchPage_globals cst feed (env_net env) (env_latency env) b (world cfg))
        as Hg.
      rewrite Hrun in Hg. unfold globals in Hg. injection Hg as Hids' Hpage' _.
      destruct Hlatch as [Hnone | ((b' & Hone) & _ & Hin)]; [congruence|].
      rewrite Hq in Hone. injection Hone as _ ->.
      unfold latch_inv. cbn. rewrite Hids', Hpage'. repeat split; auto. nia.
    + pose proof (fetchPage_globals cst feed (env_net env) (env_latency env) b (world cfg))
        as Hg.
      rewrite Hrun in Hg. unfold globals in Hg. injection Hg as Hids' Hpage' _.
      destruct Hlatch as [Hnone | ((b' & Hone) & _ & Hin)]; [congruence|].
      rewrite Hq in Hone. injection Hone as _ ->.
      unfold latch_inv. cbn. rewrite Hids', Hpage'. repeat split; auto.
Qed.

(** C6: in every state a feed reaches from its loaded id list and cursor 0
    by calls of [loadMore...News] and settlements of the fetches they wait
    for, in any order: [page * ITEMS_PER_PAGE] exceeds the length of the id
    list by at most [ITEMS_PER_PAGE - 1], before and after each step; no step
    decreases the cursor; the step on which a fetch returns adds exactly 1 to
    it, whatever was rendered, and every other step leaves it as it is; and
    at most one call is suspended. *)
Theorem cursor_invariant cst feed (ids : list Z) (cfg cfg' : Config) (l : Label) :
  0 < ITEMS_PER_PAGE cst ->
  reachable cst feed ids cfg ->
  step cst feed cfg l cfg' ->
  newsPage (user (world cfg)) * ITEMS_PER_PAGE cst
    <= List.length ids + (ITEMS_PER_PAGE cst - 1) /\
  newsPage (user (world cfg')) * ITEMS_PER_PAGE cst
    <= List.length ids + (ITEMS_PER_PAGE cst - 1) /\
  newsPage (user (world cfg)) <= newsPage (user (world cfg')) /\
  newsPage (user (world cfg')) =
    match l with
    | LSettle (Ok _) => newsPage (user (world cfg)) + 1
    | _ => newsPage (user (world cfg))
    end /\
  List.length (suspended cfg) <= 1.
Proof.
  intros HP Hreach Hstep.
  destruct (reachable_latch_inv HP Hreach) as (_ & Hbound & Hlatch).
  destruct (reachable_latch_inv HP (reach_step Hreach Hstep)) as (_ & Hbound' & _).
  destruct (step_globals Hstep) as (_ & Hpage).
  repeat split; auto.
  - rewrite Hpage. destruct l as [|[[]|e|]]; lia.
  - destruct Hlatch as [-> | ((b & ->) & _)]; cbn; lia.
Qed.

Lemma cursor_invariant_witness :
  reachable script_js Best ids7 first_page_pending /\
  exists cfg',
    step script_js Best first_page_pending (LSettle (Ok tt)) cfg' /\
    container (user (world cfg')) = [] /\
    newsPage (user (world cfg')) = 1 /\
    newsPage (user (world cfg')) * 6 <= 7 + 5.
Proof.
  assert (HP : 0 < ITEMS_PER_PAGE script_js) by (simpl; lia).
  assert (Hreach : reachable script_js Best ids7 first_page_pending).
  { apply reach_step with (cfg := {| world := loaded ids7; suspended := [] |}) (l := LAdvance).
    - apply reach_init; reflexivity.
    - apply (@step_suspend script_js Best {| world := loaded ids7; suspended := [] |}
               [1; 2; 3; 4; 5; 6]%Z (user (loading ids7))).
      reflexivity. }
  assert (Hstep : exists cfg',
             step script_js Best first_page_pending (LSettle (Ok tt)) cfg' /\
             container (user (world cfg')) = []).
  { eexists. split.
    - eapply step_resume with (env := env_down); [reflexivity | vm_compute; reflexivity].
    - reflexivity. }
  destruct Hstep as (cfg' & Hstep & Hnone).
  destruct (@cursor_invariant script_js Best ids7 first_page_pending cfg' _ HP Hreach Hstep)
    as (_ & Hbound & _ & Hpage & _).
  split; [exact Hreach|]. exists cfg'.
  split; [exact Hstep|]. split; [exact Hnone|]. split; [exact Hpage | exact Hbound].
Defined.

(** ** The order of the rendered items *)

(** However the callback run ends, it has rendered a prefix of the items, in
    their order; when it returns, it has rendered them all. *)
Lemma run_items_prefix (cst : Constants) (feed : Feed) (items : list Item) :
  forall n c,
  exists k,
    snd (run_items (onItemFetched cst feed) items n c) =
      add_nodes (nodes_of cst feed (firstn k items)) c /\
    (forall m, fst (run_items (onItemFetched cst feed) items n c) = Ok m ->
               firstn k items = items).
Proof.
  induction items as [|item rest IH]; intros n c.
  - exists 0. cbn. rewrite add_nodes_nil. auto.
  - cbn [run_items]. destruct (isValid cst feed item) eqn:Hvalid.
    + destruct (item_title item) as [t|] eqn:Htitle.
      * rewrite (@onItemFetched_valid cst feed item c t Hvalid Htitle).
        destruct (IH (n + 1) (appendChild (node_of feed item (replace_special t)) c))
          as (k & Hk & Hall).
        exists (S k). cbn [firstn nodes_of flat_map]. rewrite Hvalid, Htitle.
        fold (nodes_of cst feed (firstn k rest)). cbn [app].
        rewrite Hk, add_nodes_appendChild. split; [reflexivity|].
        intros m Hm. f_equal. eauto.
      * rewrite (@onItemFetched_untitled cst feed item c Hvalid Htitle).
        exists 0. cbn. rewrite add_nodes_nil. split; [reflexivity | discriminate].
    + rewrite (@onItemFetched_invalid cst feed item c Hvalid).
      destruct (IH n c) as (k & Hk & Hall).
      exists (S k). cbn [firstn nodes_of flat_map]. rewrite Hvalid.
      fold (nodes_of cst feed (firstn k rest)). cbn [app].
      split; [exact Hk|]. intros m Hm. f_equal. eauto.
Qed.

Lemma loadMore_outcome cst feed net latency (w : World Controller) :
  0 < MAX_CONCURRENT_REQUESTS cst ->
  newsLoading (user w) = false -> exhausted cst (user w) = false ->
  fst (loadMore cst feed net latency w) =
    fst (batch_outcome (onItemFetched cst feed) (onBatchComplete cst)
           (present net (page_ids cst (user w))) (set_loading true (user w))) /\
  user (snd (loadMore cst feed net latency w)) =
    match fst (batch_outcome (onItemFetched cst feed) (onBatchComplete cst)
                 (present net (page_ids cst (user w))) (set_loading true (user w))) with
    | Ok _ => loadMore_resume
                (snd (batch_outcome (onItemFetched cst feed) (onBatchComplete cst)
                        (present net (page_ids cst (user w))) (set_loading true (user w))))
    | _ => snd (batch_outcome (onItemFetched cst feed) (onBatchComplete cst)
                  (present net (page_ids cst (user w))) (set_loading true (user w)))
    end.
Proof.
  intros HK Hload Hopen. unfold loadMore.
  rewrite (@loadMore_enter_open cst (user w) Hload Hopen). unfold fetchPage.
  destruct (@fetchItemsWithConcurrency_outcome (MAX_CONCURRENT_REQUESTS cst) net latency
              Controller (page_ids cst (user w)) (onItemFetched cst feed)
              (onBatchComplete cst)
              {| user := set_loading true (user w); events := events w |} HK) as [Hr Hu].
  cbn [user] in Hr, Hu. rewrite <- Hr, <- Hu.
  destruct (fetchItemsWithConcurrency (MAX_CONCURRENT_REQUESTS cst) net latency
              (page_ids cst (user w)) (onItemFetched cst feed) (onBatchComplete cst)
              {| user := set_loading true (user w); events := events w |})
    as [[[]|e|] w1]; split; reflexivity.
Qed.

Lemma batch_outcome_container cst feed (items : list Item) (c : Controller) :
  exists k,
    container (snd (batch_outcome (onItemFetched cst feed) (onBatchComplete cst) items c)) =
      container c ++ nodes_of cst feed (firstn k items) /\
    (forall u, fst (batch_outcome (onItemFetched cst feed) (onBatchComplete cst) items c) = Ok u ->
               firstn k items = items).
Proof.
  destruct (run_items_prefix cst feed items 0 c) as (k & Hk & Hall).
  exists k. unfold batch_outcome.
  destruct (run_items (onItemFetched cst feed) items 0 c) as [[n|e|] c1];
    cbn [fst snd] in *; subst c1.
  - split; [reflexivity|]. intros _ _. now apply (Hall n).
  - split; [reflexivity | discriminate].
  - split; [reflexivity | discriminate].
Qed.

(** C7: the nodes a page adds to its container are those of its items in
    the order of the ids of the slice, whatever the latencies of the requests:
    the result of the call and the state it leaves are the same under any two
    latency assignments; however the call ends, the container has gained the
    nodes of a prefix of the fetched items of the slice, in order, and all of
    them when the call returns.  In the log the chunks follow one another,
    each with its requests, then their settlements, then its items; on a page
    that does not make the render function throw, the items handed to the
    callback are the fetched items of the slice in the order of its ids. *)
Theorem render_order cst feed net latency latency' (w : World Controller) :
  0 < MAX_CONCURRENT_REQUESTS cst ->
  newsLoading (user w) = false ->
  exhausted cst (user w) = false ->
  fst (loadMore cst feed net latency w) = fst (loadMore cst feed net latency' w) /\
  user (snd (loadMore cst feed net latency w)) =
    user (snd (loadMore cst feed net latency' w)) /\
  (exists k,
     container (user (snd (loadMore cst feed net latency w))) =
       container (user w)
       ++ nodes_of cst feed (firstn k (present net (page_ids cst (user w)))) /\
     (fst (loadMore cst feed net latency w) = Ok tt ->
      firstn k (present net (page_ids cst (user w))) = present net (page_ids cst (user w)))) /\
  (exists tr,
     events (snd (loadMore cst feed net latency w)) = events w ++ tr /\
     chunked (MAX_CONCURRENT_REQUESTS cst) tr /\
     (page_safe cst feed net (page_ids cst (user w)) = true ->
      fst (loadMore cst feed net latency w) = Ok tt /\
      items_of tr = present net (page_ids cst (user w)))).
Proof.
  intros HK Hload Hopen.
  destruct (@loadMore_outcome cst feed net latency w HK Hload Hopen) as [Hr Hu].
  destruct (@loadMore_outcome cst feed net latency' w HK Hload Hopen) as [Hr' Hu'].
  split; [congruence|]. split; [congruence|]. split.
  - destruct (batch_outcome_container cst feed (present net (page_ids cst (user w)))
                (set_loading true (user w))) as (k & Hk & Hall).
    exists k. rewrite Hu, Hr. cbn [container set_loading] in Hk.
    destruct (fst (batch_outcome (onItemFetched cst feed) (onBatchComplete cst)
                     (present net (page_ids cst (user w))) (set_loading true (user w))))
      as [[]|e|] eqn:Hfst.
    + split; [exact Hk | intros _; now apply (Hall tt)].
    + split; [exact Hk | discriminate].
    + split; [exact Hk | discriminate].
  - pose proof (@fetchItemsWithConcurrency_log (MAX_CONCURRENT_REQUESTS cst) net latency
                  Controller (page_ids cst (user w)) (onItemFetched cst feed)
                  (onBatchComplete cst)
                  {| user := set_loading true (user w); events := events w |})
      as (tr & Hev & Hch).
    exists tr. cbn [events] in Hev. split; [|split; [exact Hch|]].
    + unfold loadMore. rewrite (@loadMore_enter_open cst (user w) Hload Hopen).
      unfold fetchPage.
      destruct (fetchItemsWithConcurrency (MAX_CONCURRENT_REQUESTS cst) net latency
                  (page_ids cst (user w)) (onItemFetched cst feed) (onBatchComplete cst)
                  {| user := set_loading true (user w); events := events w |})
        as [[[]|e|] w1]; exact Hev.
    + intros Hsafe.
      destruct (@loadMore_completes cst feed net latency w HK Hload Hopen Hsafe)
        as (tr' & Hrun & Hitems & _ & _ & _).
      unfold loadMore in Hrun. rewrite (@loadMore_enter_open cst (user w) Hload Hopen) in Hrun.
      unfold loadMore. rewrite (@loadMore_enter_open cst (user w) Hload Hopen).
      unfold fetchPage in *.
      destruct (fetchItemsWithConcurrency (MAX_CONCURRENT_REQUESTS cst) net latency
                  (page_ids cst (user w)) (onItemFetched cst feed) (onBatchComplete cst)
                  {| user := set_loading true (user w); events := events w |})
        as [[[]|e|] w1]; try discriminate.
      split; [reflexivity|].
      apply (f_equal (fun p => events (snd p))) in Hrun. cbn [snd events] in Hrun, Hev.
      rewrite Hev in Hrun. apply app_inv_head in Hrun. subst tr.
      rewrite items_of_app, Hitems. cbn. now rewrite app_nil_r.
Qed.

Lemma render_order_witness :
  user (snd (loadMore script_js Best net_stories ascending (loaded ids7))) =
    user (snd (loadMore script_js Best net_stories descending (loaded ids7))) /\
  exists c',
    user (snd (loadMore script_js Best net_stories descending (loaded ids7))) = c' /\
    List.length (container c') = 6 /\
    events (snd (loadMore script_js Best net_stories ascending (loaded ids7))) <>
      events (snd (loadMore script_js Best net_stories descending (loaded ids7))).
Proof.
  assert (HK : 0 < MAX_CONCURRENT_REQUESTS script_js) by (simpl; lia).
  destruct (@render_order script_js Best net_stories ascending descending
              (loaded ids7) HK eq_refl eq_refl) as (_ & Hsame & _).
  split; [exact Hsame|].
  eexists. split; [reflexivity|]. split; [reflexivity|].
  vm_compute. discriminate.
Defined.

(** ** Requests in flight *)

Lemma settled_of_app (t1 t2 : list Event) :
  settled_of (t1 ++ t2) = settled_of t1 ++ settled_of t2.
Proof. apply flat_map_app. Qed.

Lemma settled_of_fetches (l : list Z) :
  settled_of (map (fun id => EvFetch (ITEM_API id)) l) = [].
Proof. induction l as [|id l IH]; simpl; congruence. Qed.

Lemma settled_of_settled (l : list Z) :
  settled_of (map (fun id => EvSettled (ITEM_API id)) l) = map ITEM_API l.
Proof. induction l as [|id l IH]; simpl; congruence. Qed.

Lemma settled_of_items (l : list Item) : settled_of (map EvItem l) = [].
Proof. induction l as [|it l IH]; simpl; congruence. Qed.

Lemma chunked_balanced (k : nat) (tr : list Event) :
  chunked k tr ->
  inflight tr = 0%Z /\ Permutation (settled_of tr) (requests_of tr).
Proof.
  induction 1 as [|n|batchIds settled items rest Hk Hperm Hrest [IHz IHp]].
  - split; [reflexivity | constructor].
  - split; [reflexivity | constructor].
  - split.
    + rewrite !inflight_app, inflight_fetches, inflight_settled, inflight_items, IHz.
      rewrite (Permutation_length Hperm). lia.
    + rewrite !settled_of_app, !requests_of_app.
      rewrite settled_of_fetches, settled_of_settled, settled_of_items.
      destruct (log_of_fetches batchIds) as (_ & -> & _).
      destruct (log_of_settled settled) as (_ & -> & _).
      destruct (log_of_items items) as (_ & -> & _).
      cbn [app]. apply Permutation_app; [now apply Permutation_map | exact IHp].
Qed.

Lemma in_sequence_chunked (K : nat) (net : Net) (tr : list Event) :
  in_sequence K net tr -> chunked K tr.
Proof.
  induction 1 as [| n | batchIds settled k Hk Hperm
                  | batchIds settled rest Hk Hperm Hrest IH].
  - constructor.
  - constructor.
  - rewrite <- (app_nil_r (map EvItem (firstn k (present net batchIds)))).
    apply chunked_chunk; auto. constructor.
  - now apply chunked_chunk.
Qed.

(** The items one chunk hands over: a prefix of its fetched items, and all
    of them when the callback returned on each. *)
Lemma forEach_prefix {St} (onItem : Item -> St -> Res bool * St)
    (batchItems : list (option Item)) :
  forall n (w : World St),
  exists k,
    forEach onItem batchItems n w =
    (fst (run_items onItem (somes batchItems) n (user w)),
     {| user := snd (run_items onItem (somes batchItems) n (user w));
        events := events w ++ map EvItem (firstn k (somes batchItems)) |}) /\
    (forall m, fst (run_items onItem (somes batchItems) n (user w)) = Ok m ->
               firstn k (somes batchItems) = somes batchItems).
Proof.
  induction batchItems as [|[item|] rest IH]; intros n w.
  - exists 0. simpl. rewrite app_nil_r. destruct w; auto.
  - cbn [forEach]. unfold bind at 1. unfold log at 1.
    unfold bind at 1. unfold call at 1. cbn [user events].
    change (somes (Some item :: rest)) with (item :: somes rest).
    cbn [run_items].
    destruct (onItem item (user w)) as [[valid|e|] s'].
    + destruct (IH (if valid then n + 1 else n)
                   {| user := s'; events := events w ++ [EvItem item] |})
        as (k & Heq & Hall).
      exists (S k). cbn [user events firstn map] in *. split.
      * rewrite Heq. now rewrite <- app_assoc.
      * intros m Hm. f_equal. eauto.
    + exists 1. cbn [fst snd firstn map]. split; [reflexivity | discriminate].
    + exists 1. cbn [fst snd firstn map]. split; [reflexivity | discriminate].
  - apply IH.
Qed.

(** The log of the loop is in sequence; when the loop returns, it is made of
    whole chunks, so that what follows it is in sequence with it. *)
Lemma fetchLoop_sequence (K : nat) (net : Net) (latency : Z -> nat) (St : Type)
    (ids : list Z) (onItem : Item -> St -> Res bool * St) (fuel : nat) :
  forall i n (w : World St),
  exists tr,
    events (snd (fetchLoop K net latency ids onItem fuel i n w)) = events w ++ tr /\
    in_sequence K net tr /\
    (forall m, fst (fetchLoop K net latency ids onItem fuel i n w) = Ok m ->
               forall rest, in_sequence K net rest -> in_sequence K net (tr ++ rest)).
Proof.
  induction fuel as [|fuel IH]; intros i n w.
  - exists []. simpl. rewrite app_nil_r. repeat split; [constructor | discriminate].
  - cbn [fetchLoop]. destruct (i <? List.length ids).
    + set (batchIds := slice ids i (i + K)).
      destruct (forEach_prefix onItem (map (fetched net) batchIds) n
                  {| user := user w; events := events w ++ chunk_log latency batchIds |})
        as (k & Heq & Hall).
      cbn [user events] in Heq, Hall.
      change (somes (map (fetched net) batchIds)) with (present net batchIds) in *.
      rewrite (@bind_Ok _ _ _ _ _ _ _ _ (@awaitBatch_eq net latency St batchIds w)).
      assert (Hlen : List.length batchIds <= K) by apply slice_length.
      pose proof (arrival_perm latency batchIds) as Hperm.
      destruct (fst (run_items onItem (present net batchIds) n (user w))) as [m|e|] eqn:Hfst.
      * rewrite (Hall m eq_refl) in *.
        rewrite (@bind_Ok _ _ _ _ _ _ _ _ Heq).
        match goal with |- context [fetchLoop _ _ _ _ _ fuel (i + K) m ?w1] =>
          destruct (IH (i + K) m w1) as (tr & Hev & Hseq & Hwhole) end.
        exists (chunk_log latency batchIds ++ map EvItem (present net batchIds) ++ tr).
        split; [rewrite Hev; cbn [events]; now rewrite <- !app_assoc|].
        unfold chunk_log. split.
        -- rewrite <- !app_assoc. now apply in_sequence_chunk.
        -- intros m' Hm' rest Hrest. rewrite <- !app_assoc.
           apply in_sequence_chunk; auto. exact (Hwhole m' Hm' rest Hrest).
      * rewrite (@bind_Throw _ _ _ _ _ _ _ _ Heq).
        exists (chunk_log latency batchIds ++ map EvItem (firstn k (present net batchIds))).
        cbn [snd events fst]. rewrite <- app_assoc. split; [reflexivity|].
        unfold chunk_log. rewrite <- app_assoc.
        split; [now apply in_sequence_cut | discriminate].
      * rewrite (@bind_OutOfFuel _ _ _ _ _ _ _ Heq).
        exists (chunk_log latency batchIds ++ map EvItem (firstn k (present net batchIds))).
        cbn [snd events fst]. rewrite <- app_assoc. split; [reflexivity|].
        unfold chunk_log. rewrite <- app_assoc.
        split; [now apply in_sequence_cut | discriminate].
    + exists []. simpl. rewrite app_nil_r. repeat split; [constructor|].
      intros m _ rest Hrest. exact Hrest.
Qed.

Lemma fetchItemsWithConcurrency_sequence (K : nat) (net : Net) (latency : Z -> nat)
    (St : Type) (ids : list Z) (onItem : Item -> St -> Res bool * St)
    (onDone : nat -> St -> Res unit * St) (w : World St) :
  exists tr,
    events (snd (fetchItemsWithConcurrency K net latency ids onItem onDone w))
      = events w ++ tr /\
    in_sequence K net tr.
Proof.
  destruct (fetchLoop_sequence K net latency ids onItem (S (List.length ids)) 0 0 w)
    as (tr & Hev & Hseq & Hwhole).
  unfold fetchItemsWithConcurrency. unfold bind at 1.
  destruct (fetchLoop K net latency ids onItem (S (List.length ids)) 0 0 w)
    as [[n|e|] wl]; cbn [fst snd] in *; try (exists tr; split; assumption).
  exists (tr ++ [EvDone n]). split.
  - unfold bind, log, call. cbn [user events].
    destruct (onDone n (user wl)) as [[[]|e|] s']; cbn [snd events];
      now rewrite Hev, app_assoc.
  - apply (Hwhole n eq_refl). constructor.
Qed.

(** Where a list that is a concatenation holds a given element. *)
Lemma app_split_at {A} (l1 l2 pre post : list A) (x : A) :
  l1 ++ l2 = pre ++ x :: post ->
  (exists mid, l1 = pre ++ x :: mid /\ post = mid ++ l2) \/
  (exists pre', pre = l1 ++ pre' /\ l2 = pre' ++ x :: post).
Proof.
  revert pre. induction l1 as [|a l1 IH]; intros pre Heq.
  - right. exists pre. auto.
  - destruct pre as [|b pre]; cbn [app] in Heq; injection Heq as -> Heq.
    + left. exists l1. auto.
    + destruct (IH pre Heq) as [(mid & -> & ->) | (pre' & -> & ->)].
      * left. exists mid. auto.
      * right. exists pre'. auto.
Qed.

Lemma item_ids_requests (l : list Z) (urls : list Endpoint) :
  item_ids (map ITEM_API l ++ urls) = l ++ item_ids urls.
Proof. induction l as [|id l IH]; simpl; congruence. Qed.

Lemma fetch_not_settled_or_item (url : Endpoint) (settled : list Z) (items : list Item) :
  ~ In (EvFetch url)
      (map (fun id => EvSettled (ITEM_API id)) settled ++ map EvItem items).
Proof.
  intros Hin. apply in_app_or in Hin as [Hin | Hin];
    apply in_map_iff in Hin as (x & Hx & _); discriminate.
Qed.

(** A request issued while nothing is in flight opens a chunk: before it, in
    the part [pre] of the log, every request has settled and the fetched
    items of all ids requested so far have been handed to the callback. *)
Lemma in_sequence_request (K : nat) (net : Net) (tr : list Event) :
  in_sequence K net tr ->
  forall pre url post,
    tr = pre ++ EvFetch url :: post ->
    inflight pre = 0%Z ->
    items_of pre = present net (item_ids (requests_of pre)) /\
    Permutation (settled_of pre) (requests_of pre).
Proof.
  assert (Hstart : forall (batchIds : list Z) pre url mid,
             map (fun id => EvFetch (ITEM_API id)) batchIds = pre ++ EvFetch url :: mid ->
             inflight pre = 0%Z -> pre = []).
  { intros batchIds pre url mid Heq Hz.
    apply map_eq_app in Heq as (l1 & l2 & _ & Hpre & _). subst pre.
    rewrite inflight_fetches in Hz. destruct l1; [reflexivity | simpl in Hz; lia]. }
  induction 1 as [| n | batchIds settled k Hk Hperm
                  | batchIds settled rest Hk Hperm Hrest IH];
    intros pre url post Heq Hz.
  - destruct pre; discriminate.
  - destruct pre as [|e [|e' pre]]; discriminate.
  - apply app_split_at in Heq as [(mid & Hin & _) | (pre' & _ & Hin)].
    + rewrite (Hstart _ _ _ _ Hin Hz). split; [reflexivity | constructor].
    + exfalso. apply (@fetch_not_settled_or_item url settled
                        (firstn k (present net batchIds))).
      rewrite Hin. apply in_or_app. right. now left.
  - apply app_split_at in Heq as [(mid & Hin & _) | (pre1 & -> & Heq)].
    + rewrite (Hstart _ _ _ _ Hin Hz). split; [reflexivity | constructor].
    + apply app_split_at in Heq as [(mid & Hin & _) | (pre2 & -> & Heq)].
      * exfalso. apply (@fetch_not_settled_or_item url settled []).
        rewrite app_nil_r, Hin. apply in_or_app. right. now left.
      * apply app_split_at in Heq as [(mid & Hin & _) | (pre3 & -> & Heq)].
        -- exfalso. apply (@fetch_not_settled_or_item url [] (present net batchIds)).
           cbn [map app]. rewrite Hin. apply in_or_app. right. now left.
        -- rewrite !inflight_app, inflight_fetches, inflight_settled, inflight_items in Hz.
           rewrite (Permutation_length Hperm) in Hz.
           destruct (IH pre3 url post Heq ltac:(lia)) as [Hitems Hsettled].
           rewrite !items_of_app, !requests_of_app, !settled_of_app.
           rewrite settled_of_fetches, settled_of_settled, settled_of_items.
           destruct (log_of_fetches batchIds) as (-> & -> & _).
           destruct (log_of_settled settled) as (-> & -> & _).
           destruct (log_of_items (present net batchIds)) as (-> & -> & _).
           cbn [app]. rewrite item_ids_requests, present_app, Hitems. split.
           ++ reflexivity.
           ++ apply Permutation_app; [now apply Permutation_map | exact Hsettled].
Qed.

(** C9: in the log of one call of [fetchItemsWithConcurrency], with any
    callbacks, any network, any latencies and any outcome, the chunks follow
    one another: the requests of a chunk of at most [K] ids, their
    settlements, then every fetched item of the chunk handed to the callback,
    and only then the next chunk.  So at every point of the log the requests
    issued and not yet settled number at most [K]; and whenever a request is
    issued with nothing in flight, every earlier request has settled and the
    fetched items of all ids requested before it have been handed to the
    callback.  A call that returns has requested every id. *)
Theorem inflight_bounded (K : nat) (net : Net) (latency : Z -> nat) (St : Type)
    (ids : list Z) (onItem : Item -> St -> Res bool * St)
    (onDone : nat -> St -> Res unit * St) (w : World St) :
  exists tr,
    events (snd (fetchItemsWithConcurrency K net latency ids onItem onDone w))
      = events w ++ tr /\
    in_sequence K net tr /\
    chunked K tr /\
    (forall n, (0 <= inflight (firstn n tr) <= Z.of_nat K)%Z) /\
    (forall pre url post,
       tr = pre ++ EvFetch url :: post ->
       inflight pre = 0%Z ->
       items_of pre = present net (item_ids (requests_of pre)) /\
       Permutation (settled_of pre) (requests_of pre)) /\
    (0 < K ->
     fst (fetchItemsWithConcurrency K net latency ids onItem onDone w) = Ok tt ->
     requests_of tr = map ITEM_API ids).
Proof.
  destruct (fetchItemsWithConcurrency_sequence K net latency ids onItem onDone w)
    as (tr & Hev & Hseq).
  pose proof (in_sequence_chunked Hseq) as Hch.
  exists tr. split; [exact Hev|]. split; [exact Hseq|]. split; [exact Hch|].
  split; [|split].
  - exact (chunked_bounded Hch).
  - exact (in_sequence_request Hseq).
  - intros HK Hret. now apply (@fetchItemsWithConcurrency_requests K net latency St ids
                                 onItem onDone w tr HK Hret).
Qed.

Lemma inflight_bounded_witness :
  exists tr pre post,
    events (snd (fetchItemsWithConcurrency 3 net_stories descending ids7
                   accept_all keep_state {| user := 0; events := [] |})) = tr /\
    requests_of tr = map ITEM_API ids7 /\
    (inflight (firstn 3 tr) = 3)%Z /\
    (forall n, (inflight (firstn n tr) <= 3)%Z) /\
    tr = pre ++ EvFetch (ITEM_API 4) :: post /\
    items_of pre = present net_stories [1; 2; 3]%Z.
Proof.
  destruct (@inflight_bounded 3 net_stories descending nat ids7 accept_all keep_state
              {| user := 0; events := [] |}) as (tr & Hev & _ & _ & Hbound & Hstart & Hreq).
  cbn [events app] in Hev.
  exists tr, (firstn 9 tr), (skipn 10 tr). split; [exact Hev|].
  split; [apply Hreq; [lia | reflexivity]|].
  split; [rewrite <- Hev; reflexivity|].
  split; [intros n; exact (proj2 (Hbound n))|].
  assert (Hsplit : tr = firstn 9 tr ++ EvFetch (ITEM_API 4) :: skipn 10 tr)
    by (rewrite <- Hev; reflexivity).
  split; [exact Hsplit|].
  destruct (Hstart _ _ _ Hsplit) as [Hitems _].
  - rewrite <- Hev. reflexivity.
  - rewrite Hitems, <- Hev. reflexivity.
Defined.

(** ** The title *)

(** C10, as stated, fails for a story whose URL is present and empty: the
    check is false and [escapeHTML] is not reached, in both feeds. *)
Lemma empty_url_fails_check :
  item_type story_empty_url_untitled = "story" /\
  item_url story_empty_url_untitled <> None /\
  (score_or_0 (item_score story_empty_url_untitled) >= MIN_SCORE_LATEST script_js)%Z /\
  item_title story_empty_url_untitled = None /\
  (forall feed, isValid script_js feed story_empty_url_untitled = false) /\
  (forall feed c, onItemFetched script_js feed story_empty_url_untitled c = (Ok false, c)).
Proof.
  repeat split.
  - discriminate.
  - discriminate.
  - intros []; reflexivity.
  - intros [] c; reflexivity.
Qed.

(** C10, amended: the check does not read the title.  For an item whose
    type is ['story'], whose URL is present and not empty and, in the latest
    feed, whose score is at least the threshold, the check is true whatever
    the title, and the callback goes on to render: its result is decided by
    [escapeHTML] on the title, and with an absent title that call throws a
    TypeError, which leaves the callback with the container unchanged. *)
Theorem check_ignores_title cst feed (item : Item) (c : Controller) (title : option string) :
  isValid cst feed (set_title title item) = isValid cst feed item /\
  (accepted cst feed item ->
   isValid cst feed item = true /\
   fst (onItemFetched cst feed item c) =
     res_bind (escapeHTML (item_title item)) (fun _ => Ok true) /\
   (item_title item = None ->
    escapeHTML (item_title item) = Throw TypeError /\
    onItemFetched cst feed item c = (Throw TypeError, c))).
Proof.
  split.
  - destruct feed; reflexivity.
  - intros Hacc. apply isValid_spec in Hacc. split; [exact Hacc|]. split.
    + unfold onItemFetched, renderNewsItem. rewrite Hacc.
      destruct (escapeHTML (item_title item)); reflexivity.
    + intros Hnone. split; [now rewrite Hnone|].
      now apply onItemFetched_untitled.
Qed.

Lemma check_ignores_title_witness :
  accepted script_js Best story_untitled /\
  isValid script_js Best story_untitled = true /\
  onItemFetched script_js Best story_untitled (user (loaded ids7)) =
    (Throw TypeError, user (loaded ids7)).
Proof.
  assert (Hacc : accepted script_js Best story_untitled).
  { split; [reflexivity|]. split.
    - eexists. split; [reflexivity | discriminate].
    - discriminate. }
  destruct (@check_ignores_title script_js Best story_untitled (user (loaded ids7)) None)
    as (_ & Hrender).
  destruct (Hrender Hacc) as (Hvalid & _ & Hthrow).
  split; [exact Hacc|]. split; [exact Hvalid|].
  exact (proj2 (Hthrow eq_refl)).
Defined.

(** When the render function throws, the call of [loadMore...News] is
    rejected after the latch was closed: the cursor is not incremented and
    the loading flag stays set, so later calls return at once. *)
Example untitled_story_blocks_feed :
  exists w',
    loadMoreBestNews net_untitled (fun _ => 0) (loaded ids7) = (Throw TypeError, w') /\
    newsPage (user w') = 0 /\
    newsLoading (user w') = true /\
    container (user w') = [] /\
    loadMoreBestNews net_stories (fun _ => 0) w' = (Ok tt, w').
Proof.
  eexists. split; [vm_compute; reflexivity|].
  repeat split.
Qed.

(** Scenario A of the spec: seven ids, pages of 6, chunks of 3. *)
Example scenario_A :
  exists w1 w2,
    loadMoreBestNews net_stories ascending (loaded ids7) = (Ok tt, w1) /\
    requests_of (events w1) = map ITEM_API [1; 2; 3; 4; 5; 6]%Z /\
    newsPage (user w1) = 1 /\ loadBtn (user w1) = display_block /\
    loadMoreBestNews net_stories ascending w1 = (Ok tt, w2) /\
    requests_of (events w2) = map ITEM_API ids7 /\
    newsPage (user w2) = 2 /\ loadBtn (user w2) = display_none /\
    exhausted script_js (user w2) = true.
Proof.
  eexists. eexists. split; [vm_compute; reflexivity|].
  split; [reflexivity|]. split; [reflexivity|]. split; [reflexivity|].
  split; [vm_compute; reflexivity|]. repeat split.
Qed.

(** * The rest of the script *)

(** ** [escapeHTML] *)

Lemma append_assoc (a b c : string) :
  String.append (String.append a b) c = String.append a (String.append b c).
Proof. induction a as [|x a IH]; simpl; congruence. Qed.

Lemma chars_append (a b : string) :
  list_ascii_of_string (String.append a b) = list_ascii_of_string a ++ list_ascii_of_string b.
Proof. induction a as [|x a IH]; simpl; congruence. Qed.

Lemma length_append (a b : string) :
  String.length (String.append a b) = String.length a + String.length b.
Proof. induction a as [|x a IH]; simpl; congruence. Qed.

Ltac pick_case :=
  first [ split; reflexivity | left; split; reflexivity | right; pick_case ].

(** The six ways [escapeChar] treats a character. *)
Lemma escapeChar_cases (c : ascii) :
  (c = "&"%char /\ escapeChar c = "&amp;") \/
  (c = "<"%char /\ escapeChar c = "&lt;") \/
  (c = ">"%char /\ escapeChar c = "&gt;") \/
  (c = double_quote /\ escapeChar c = "&quot;") \/
  (c = "'"%char /\ escapeChar c = "&#039;") \/
  (special c = false /\ escapeChar c = String c EmptyString).
Proof.
  unfold escapeChar, special.
  destruct (Ascii.eqb_spec c "&"); [subst; pick_case|].
  destruct (Ascii.eqb_spec c "<"); [subst; pick_case|].
  destruct (Ascii.eqb_spec c ">"); [subst; pick_case|].
  destruct (Ascii.eqb_spec c double_quote); [subst; pick_case|].
  destruct (Ascii.eqb_spec c "'"); [subst; pick_case|].
  pick_case.
Qed.

Lemma special_amp (c : ascii) : special c = false -> c <> "&"%char.
Proof. intros Hs ->. discriminate. Qed.

Lemma special_markup (c : ascii) : special c = false -> markup c = false.
Proof.
  unfold special, markup. destruct (Ascii.eqb c "&"); [discriminate|]. auto.
Qed.

Lemma escapeChar_clean (c : ascii) :
  forallb (fun x => negb (markup x)) (list_ascii_of_string (escapeChar c)) = true.
Proof.
  destruct (escapeChar_cases c)
    as [[_ ->] | [[_ ->] | [[_ ->] | [[_ ->] | [[_ ->] | [Hs ->]]]]]]; try reflexivity.
  simpl. now rewrite (special_markup _ Hs).
Qed.

Lemma replace_special_clean (s : string) :
  forallb (fun x => negb (markup x)) (list_ascii_of_string (replace_special s)) = true.
Proof.
  induction s as [|c s IH]; [reflexivity|].
  cbn [replace_special]. now rewrite chars_append, forallb_app, escapeChar_clean, IH.
Qed.

(** X1: whatever the text, the string [escapeHTML] returns contains none of
    the characters [<], [>], double quote and single quote. *)
Theorem escapeHTML_no_markup (text : option string) (out : string) (c : ascii) :
  escapeHTML text = Ok out ->
  In c (list_ascii_of_string out) ->
  markup c = false.
Proof.
  destruct text as [s|]; [|discriminate]. intros [= <-] Hin.
  pose proof (replace_special_clean s) as Hclean.
  rewrite forallb_forall in Hclean. apply Hclean in Hin.
  now apply negb_true_iff in Hin.
Qed.

Lemma escapeHTML_no_markup_witness :
  exists out,
    escapeHTML (Some title_with_markup) = Ok out /\
    forallb (fun x => negb (markup x)) (list_ascii_of_string out) = true.
Proof.
  eexists. split; [reflexivity|].
  apply forallb_forall. intros c Hin. apply negb_true_iff.
  exact (@escapeHTML_no_markup (Some title_with_markup) _ c eq_refl Hin).
Defined.

(** X2: escaping distributes over concatenation: the escaped form of
    [a ++ b] is the escaped form of [a] followed by that of [b]. *)
Theorem escapeHTML_append (a b : string) :
  escapeHTML (Some (String.append a b)) =
  res_bind (escapeHTML (Some a)) (fun a' =>
  res_bind (escapeHTML (Some b)) (fun b' => Ok (String.append a' b'))).
Proof.
  simpl. f_equal. induction a as [|c a IH]; [reflexivity|].
  cbn [String.append replace_special]. now rewrite IH, append_assoc.
Qed.

Lemma replace_special_length (s : string) :
  String.length s <= String.length (replace_special s).
Proof.
  induction s as [|c s IH]; [simpl; lia|].
  cbn [replace_special]. rewrite length_append.
  destruct (escapeChar_cases c)
    as [[_ ->] | [[_ ->] | [[_ ->] | [[_ ->] | [[_ ->] | [_ ->]]]]]]; simpl; lia.
Qed.

(** X3: [escapeHTML] returns its argument unchanged exactly when the text
    contains none of the five characters it replaces. *)
Theorem escapeHTML_fixed_iff (s : string) :
  escapeHTML (Some s) = Ok s <->
  forallb (fun c => negb (special c)) (list_ascii_of_string s) = true.
Proof.
  simpl. split.
  - intros [= Heq]. induction s as [|c s IH]; [reflexivity|].
    cbn [replace_special] in Heq. pose proof (replace_special_length s) as Hlen.
    destruct (escapeChar_cases c)
      as [[-> He] | [[-> He] | [[-> He] | [[-> He] | [[-> He] | [Hs He]]]]]];
      rewrite He in Heq; simpl in Heq; try discriminate.
    + injection Heq as Heq. apply (f_equal String.length) in Heq. simpl in Heq. lia.
    + injection Heq as Heq. simpl. rewrite Hs. simpl. auto.
  - intros Hall. f_equal. induction s as [|c s IH]; [reflexivity|].
    simpl in Hall. apply andb_true_iff in Hall as [Hc Hs].
    apply negb_true_iff in Hc. cbn [replace_special].
    destruct (escapeChar_cases c)
      as [[-> _] | [[-> _] | [[-> _] | [[-> _] | [[-> _] | [_ ->]]]]]];
      try discriminate.
    simpl. now rewrite IH.
Qed.

Lemma escapeHTML_fixed_iff_witness :
  escapeHTML (Some "Show HN: a plain title") = Ok "Show HN: a plain title" /\
  escapeHTML (Some "R&D") <> Ok "R&D".
Proof.
  split.
  - apply (proj2 (escapeHTML_fixed_iff "Show HN: a plain title")). reflexivity.
  - intros Hfixed. apply (proj1 (escapeHTML_fixed_iff "R&D")) in Hfixed. discriminate.
Defined.

Lemma replace_special_injective (a : string) :
  forall b, replace_special a = replace_special b -> a = b.
Proof.
  induction a as [|x a IH]; intros [|y b] Heq.
  - reflexivity.
  - exfalso. cbn [replace_special] in Heq.
    destruct (escapeChar_cases y)
      as [[_ He] | [[_ He] | [[_ He] | [[_ He] | [[_ He] | [_ He]]]]]];
      rewrite He in Heq; discriminate.
  - exfalso. cbn [replace_special] in Heq.
    destruct (escapeChar_cases x)
      as [[_ He] | [[_ He] | [[_ He] | [[_ He] | [[_ He] | [_ He]]]]]];
      rewrite He in Heq; discriminate.
  - cbn [replace_special] in Heq.
    destruct (escapeChar_cases x)
      as [[-> Hx] | [[-> Hx] | [[-> Hx] | [[-> Hx] | [[-> Hx] | [Hsx Hx]]]]]];
    destruct (escapeChar_cases y)
      as [[-> Hy] | [[-> Hy] | [[-> Hy] | [[-> Hy] | [[-> Hy] | [Hsy Hy]]]]]];
      rewrite ?Hx, ?Hy in Heq; simpl in Heq;
      try discriminate;
      try (injection Heq as Heq; f_equal; now apply IH);
      try (injection Heq as Hc _; subst; discriminate).
    injection Heq as -> Heq. f_equal. now apply IH.
Qed.

(** X4: [escapeHTML] loses nothing: two arguments with the same outcome are
    the same, so the text can be recovered from its escaped form. *)
Theorem escapeHTML_injective (a b : option string) :
  escapeHTML a = escapeHTML b -> a = b.
Proof.
  destruct a as [a|], b as [b|]; simpl; try discriminate; [|reflexivity].
  intros [= Heq]. f_equal. now apply replace_special_injective.
Qed.

Lemma escapeHTML_injective_witness :
  escapeHTML (Some "a&b") = escapeHTML (Some "a&b") /\ Some "a&b" = Some "a&b".
Proof.
  split; [reflexivity|].
  exact (@escapeHTML_injective (Some "a&b") (Some "a&b") eq_refl).
Defined.

(** ** Relative time *)

Lemma div_ltb (a d k : Z) : (0 < d)%Z -> (a / d <? k)%Z = (a <? d * k)%Z.
Proof.
  intros Hd. destruct (Z.ltb_spec a (d * k)) as [Hlt | Hge].
  - apply Z.ltb_lt. now apply Z.div_lt_upper_bound.
  - apply Z.ltb_ge. now apply Z.div_le_lower_bound.
Qed.

Lemma elapsed_count_bounds (e : Z) :
  (60000 <= e)%Z ->
  (1 <= e / unit_ms (elapsed_unit e))%Z /\
  match elapsed_unit e with
  | Minute => (e / unit_ms (elapsed_unit e) < 60)%Z
  | Hour => (e / unit_ms (elapsed_unit e) < 24)%Z
  | Day => (e / unit_ms (elapsed_unit e) < 30)%Z
  | Month => True
  end.
Proof.
  intros He. unfold elapsed_unit.
  destruct (Z.ltb_spec e 3600000); [|destruct (Z.ltb_spec e 86400000);
                                      [|destruct (Z.ltb_spec e 2592000000)]];
    cbn [unit_ms]; split;
    try (apply Z.div_le_lower_bound; lia);
    try (apply Z.div_lt_upper_bound; lia); exact I.
Qed.

(** The numbers the two time functions compute, by the milliseconds elapsed. *)
Lemma time_numbers (e : Z) :
  (e / 1000 / 60 = e / 60000)%Z /\
  (e / 1000 / 60 / 60 = e / 3600000)%Z /\
  (e / 1000 / 60 / 60 / 24 = e / 86400000)%Z /\
  (e / 1000 / 60 / 60 / 24 / 30 = e / 2592000000)%Z.
Proof. rewrite !Z.div_div by lia. repeat split. Qed.

(** [formatRelativeTimeFallback], by the milliseconds elapsed between
    the timestamp and the clock: under a minute, and for a timestamp in the
    future, the label is ['just now']; from a minute on, it counts whole
    minutes below an hour, whole hours below a day, whole days below 30 days
    and whole 30-day months from there, never years; the count is at least 1
    and below 60, 24 and 30 for minutes, hours and days, and the unit is in
    the singular exactly for a count of 1. *)
Lemma fallback_cases (now t : Z) :
  exact_times now t ->
  ((now - t * 1000 < 60000)%Z ->
   formatRelativeTimeFallback now (Some t) = "just now") /\
  ((60000 <= now - t * 1000)%Z ->
   formatRelativeTimeFallback now (Some t) =
     ago ((now - t * 1000) / unit_ms (elapsed_unit (now - t * 1000)))
         (unit_name (elapsed_unit (now - t * 1000))) /\
   (1 <= (now - t * 1000) / unit_ms (elapsed_unit (now - t * 1000)))%Z /\
   match elapsed_unit (now - t * 1000) with
   | Minute => ((now - t * 1000) / unit_ms (elapsed_unit (now - t * 1000)) < 60)%Z
   | Hour => ((now - t * 1000) / unit_ms (elapsed_unit (now - t * 1000)) < 24)%Z
   | Day => ((now - t * 1000) / unit_ms (elapsed_unit (now - t * 1000)) < 30)%Z
   | Month => True
   end).
Proof.
  intros _. unfold formatRelativeTimeFallback.
  cbn [js_mul js_sub_from js_floor_div js_lt js_is js_str option_map].
  set (e := (now - t * 1000)%Z).
  destruct (time_numbers e) as (-> & -> & -> & ->).
  rewrite !div_ltb by lia.
  change (1000 * 60)%Z with 60000%Z. change (60000 * 60)%Z with 3600000%Z.
  change (3600000 * 24)%Z with 86400000%Z. change (86400000 * 30)%Z with 2592000000%Z.
  split.
  - intros He. apply Z.ltb_lt in He. now rewrite He.
  - intros He. split; [|now apply elapsed_count_bounds].
    destruct (Z.ltb_spec e 60000) as [|_]; [lia|].
    unfold elapsed_unit, ago.
    destruct (e <? 3600000)%Z; [cbn [unit_ms unit_name];
      destruct (e / 60000 =? 1)%Z; reflexivity|].
    destruct (e <? 86400000)%Z; [cbn [unit_ms unit_name];
      destruct (e / 3600000 =? 1)%Z; reflexivity|].
    destruct (e <? 2592000000)%Z; cbn [unit_ms unit_name].
    + destruct (e / 86400000 =? 1)%Z; reflexivity.
    + destruct (e / 2592000000 =? 1)%Z; reflexivity.
Qed.

Lemma elapsed_count_safe (e : Z) :
  (Z.abs e <= MAX_SAFE_INTEGER)%Z ->
  (60000 <= e)%Z ->
  (Z.abs (e / unit_ms (elapsed_unit e)) <= MAX_SAFE_INTEGER)%Z.
Proof.
  intros Hsafe He. destruct (@elapsed_count_bounds e He) as [Hpos _].
  assert (Hms : (0 < unit_ms (elapsed_unit e))%Z) by (destruct (elapsed_unit e); cbn; lia).
  assert (Hle : (e / unit_ms (elapsed_unit e) <= e)%Z).
  { apply Z.div_le_upper_bound; [exact Hms|]. nia. }
  lia.
Qed.

(** X5: for a clock and a timestamp whose numbers are safe integers,
    [formatRelativeTimeFallback], by the milliseconds elapsed between the
    timestamp and the clock: under a minute, and for a timestamp in the
    future, the label is ['just now']; from a minute on it counts whole
    minutes below an hour, whole hours below a day, whole days below 30 days
    and whole 30-day months from there, never years; the count is at least 1
    and below 60, 24 and 30 for minutes, hours and days, it is a safe integer,
    and the unit is in the singular exactly for a count of 1. *)
Theorem fallback_label (now t : Z) :
  exact_times now t ->
  ((now - t * 1000 < 60000)%Z ->
   formatRelativeTimeFallback now (Some t) = "just now") /\
  ((60000 <= now - t * 1000)%Z ->
   formatRelativeTimeFallback now (Some t) =
     ago ((now - t * 1000) / unit_ms (elapsed_unit (now - t * 1000)))
         (unit_name (elapsed_unit (now - t * 1000))) /\
   (1 <= (now - t * 1000) / unit_ms (elapsed_unit (now - t * 1000)))%Z /\
   (Z.abs ((now - t * 1000) / unit_ms (elapsed_unit (now - t * 1000)))
    <= MAX_SAFE_INTEGER)%Z /\
   match elapsed_unit (now - t * 1000) with
   | Minute => ((now - t * 1000) / unit_ms (elapsed_unit (now - t * 1000)) < 60)%Z
   | Hour => ((now - t * 1000) / unit_ms (elapsed_unit (now - t * 1000)) < 24)%Z
   | Day => ((now - t * 1000) / unit_ms (elapsed_unit (now - t * 1000)) < 30)%Z
   | Month => True
   end).
Proof.
  intros Hexact. destruct (fallback_cases Hexact) as [Hsoon Hago].
  destruct Hexact as (_ & _ & Hdiff).
  split; [exact Hsoon|]. intros He.
  destruct (Hago He) as (Hlabel & Hpos & Hunit).
  split; [exact Hlabel|]. split; [exact Hpos|]. split; [|exact Hunit].
  now apply elapsed_count_safe.
Qed.

Lemma fallback_label_witness :
  exact_times 1700003600000 1700000000 /\
  formatRelativeTimeFallback 1700003600000 (Some 1700000000%Z) = "1 hour ago" /\
  formatRelativeTimeFallback 1700000000000 (Some 1700000999%Z) = "just now" /\
  formatRelativeTimeFallback 1763072000000 (Some 1700000000%Z) = "24 months ago".
Proof.
  assert (H1 : exact_times 1700003600000 1700000000)
    by (unfold exact_times, MAX_SAFE_INTEGER; lia).
  assert (H2 : exact_times 1700000000000 1700000999)
    by (unfold exact_times, MAX_SAFE_INTEGER; lia).
  assert (H3 : exact_times 1763072000000 1700000000)
    by (unfold exact_times, MAX_SAFE_INTEGER; lia).
  destruct (fallback_label H1) as [_ Hhour].
  destruct (fallback_label H2) as [Hsoon _].
  destruct (fallback_label H3) as [_ Hmonths].
  split; [exact H1|].
  split; [exact (proj1 (Hhour ltac:(lia)))|].
  split; [exact (Hsoon ltac:(lia))|].
  exact (proj1 (Hmonths ltac:(lia))).
Defined.

(** X6: for a clock and a timestamp whose numbers are safe integers,
    [formatRelativeTime] answers ['just now'] under a minute whatever the
    browser; from a minute on it asks [Intl.RelativeTimeFormat] for the
    negated count in the unit the fallback would use, and when the
    constructor is missing or [format] throws, the label is the fallback's. *)
Theorem formatRelativeTime_label (intl : Intl) (now t : Z) :
  exact_times now t ->
  ((now - t * 1000 < 60000)%Z -> formatRelativeTime intl now (Some t) = "just now") /\
  ((60000 <= now - t * 1000)%Z ->
   formatRelativeTime intl now (Some t) =
     match
       (if RelativeTimeFormat intl
        then rtf_format intl
               (- ((now - t * 1000) / unit_ms (elapsed_unit (now - t * 1000))))
               (elapsed_unit (now - t * 1000))
        else None)
     with
     | Some label => label
     | None => ago ((now - t * 1000) / unit_ms (elapsed_unit (now - t * 1000)))
                   (unit_name (elapsed_unit (now - t * 1000)))
     end).
Proof.
  intros Hexact. destruct (fallback_cases Hexact) as [Hsoon Hago].
  unfold formatRelativeTime, formatRelativeTime_try.
  cbn [js_mul js_sub_from js_floor_div js_lt js_neg format option_map].
  set (e := (now - t * 1000)%Z) in *.
  destruct (time_numbers e) as (-> & -> & -> & ->).
  rewrite !div_ltb by lia.
  change (1000 * 60)%Z with 60000%Z. change (60000 * 60)%Z with 3600000%Z.
  change (3600000 * 24)%Z with 86400000%Z. change (86400000 * 30)%Z with 2592000000%Z.
  split.
  - intros He. destruct (RelativeTimeFormat intl); cbn [negb]; [|now apply Hsoon].
    apply Z.ltb_lt in He. now rewrite He.
  - intros He. destruct (Hago He) as [Hfallback _]. rewrite Hfallback.
    destruct (RelativeTimeFormat intl); cbn [negb]; [|reflexivity].
    destruct (Z.ltb_spec e 60000) as [|_]; [lia|].
    unfold elapsed_unit.
    destruct (e <? 3600000)%Z; [reflexivity|].
    destruct (e <? 86400000)%Z; [reflexivity|].
    destruct (e <? 2592000000)%Z; reflexivity.
Qed.

Lemma formatRelativeTime_label_witness :
  exact_times 1700086400000 1700000000 /\
  formatRelativeTime intl_en 1700086400000 (Some 1700000000%Z) = "yesterday" /\
  formatRelativeTime intl_none 1700086400000 (Some 1700000000%Z) = "1 day ago" /\
  formatRelativeTime intl_en 1700000000000 (Some 1700000000%Z) = "just now".
Proof.
  assert (H1 : exact_times 1700086400000 1700000000)
    by (unfold exact_times, MAX_SAFE_INTEGER; lia).
  assert (H2 : exact_times 1700000000000 1700000000)
    by (unfold exact_times, MAX_SAFE_INTEGER; lia).
  destruct (formatRelativeTime_label intl_en H1) as [_ Hen].
  destruct (formatRelativeTime_label intl_none H1) as [_ Hnone].
  destruct (formatRelativeTime_label intl_en H2) as [Hsoon _].
  split; [exact H1|].
  split; [exact (Hen ltac:(lia))|].
  split; [exact (Hnone ltac:(lia))|].
  exact (Hsoon ltac:(lia)).
Defined.

(** X7: for an item without a [time] field every number of the time
    functions is [NaN]: no comparison holds, [Intl]'s [format] rejects the
    value, and both functions return ['NaN months ago'], whatever the clock
    and the browser. *)
Theorem absent_time_label (intl : Intl) (now : Z) :
  formatRelativeTime intl now None = "NaN months ago" /\
  formatRelativeTimeFallback now None = "NaN months ago".
Proof.
  unfold formatRelativeTime, formatRelativeTime_try.
  destruct (RelativeTimeFormat intl); split; reflexivity.
Qed.

(** ** Domains *)

Lemma substring_all (s : string) : substring 0 (String.length s) s = s.
Proof. induction s as [|c s IH]; simpl; congruence. Qed.

Lemma prefix_www (hostname : string) :
  prefix "www." hostname = true ->
  hostname = String.append "www." (slice_from 4 hostname).
Proof.
  intros Hwww. apply prefix_correct in Hwww. cbn [String.length] in Hwww.
  destruct hostname as [|c1 [|c2 [|c3 [|c4 rest]]]]; cbn [substring] in Hwww;
    try discriminate.
  injection Hwww as -> -> -> -> _.
  unfold slice_from. cbn [String.length Nat.sub substring String.append].
  now rewrite ?Nat.sub_0_r, substring_all.
Qed.

(** X8: [extractDomain] never throws: for a string the URL parser rejects it
    returns ['unknown'], and otherwise the hostname, without its first four
    characters when these are ['www.'] (one such prefix only). *)
Theorem extractDomain_result (hostname_of : string -> option string) (url : string) :
  exists domain,
    extractDomain hostname_of url = Ok domain /\
    match hostname_of url with
    | None => domain = "unknown"
    | Some hostname =>
        (prefix "www." hostname = true /\ hostname = String.append "www." domain) \/
        (prefix "www." hostname = false /\ domain = hostname)
    end.
Proof.
  unfold extractDomain. destruct (hostname_of url) as [hostname|]; simpl.
  - destruct (prefix "www." hostname) eqn:Hwww.
    + exists (slice_from 4 hostname). split; [reflexivity|]. left.
      split; [reflexivity | now apply prefix_www].
    + exists hostname. auto.
  - exists "unknown". auto.
Qed.

(** ** Images *)

(** X9: [getImageByID] gives every non-negative id one of the three images,
    the one at index [id mod 3], so ids that differ by 3 share their image;
    a negative id that is not a multiple of 3 gets no image at all, because
    the remainder is negative. *)
Theorem getImageByID_cycle (id : Z) :
  ((0 <= id)%Z ->
   exists image,
     getImageByID id = Some image /\
     In image IMAGES /\
     nth_error IMAGES (Z.to_nat (id mod 3)) = Some image /\
     getImageByID (id + 3) = Some image) /\
  ((id < 0)%Z -> (id mod 3 <> 0)%Z -> getImageByID id = None).
Proof.
  unfold getImageByID. change (Z.of_nat (List.length IMAGES)) with 3%Z. split.
  - intros Hid.
    rewrite !Z.rem_mod_nonneg by lia.
    replace ((id + 3) mod 3)%Z with (id mod 3)%Z
      by (rewrite <- (Z.mul_1_l 3) at 2; now rewrite Z.mod_add by lia).
    pose proof (Z.mod_pos_bound id 3 ltac:(lia)) as Hr.
    destruct (Z.ltb_spec (id mod 3) 0) as [|_]; [lia|].
    assert (Hcases : (id mod 3 = 0 \/ id mod 3 = 1 \/ id mod 3 = 2)%Z) by lia.
    destruct Hcases as [-> | [-> | ->]]; eexists; cbn; repeat split; auto.
  - intros Hneg Hmod.
    pose proof (Z.rem_nonpos id 3 ltac:(lia) ltac:(lia)) as Hr.
    assert (Hnz : Z.rem id 3 <> 0%Z).
    { intros Hz. apply Hmod. now apply Z.rem_mod_eq_0 in Hz. }
    destruct (Z.ltb_spec (Z.rem id 3) 0); [reflexivity | lia].
Qed.

Lemma getImageByID_cycle_witness :
  getImageByID 42 = Some "../assets/img-black.png" /\
  getImageByID 45 = Some "../assets/img-black.png" /\
  getImageByID (-1) = None.
Proof.
  destruct (getImageByID_cycle 42) as [Hpos _].
  destruct (getImageByID_cycle (-1)) as [_ Hneg].
  destruct (Hpos ltac:(lia)) as (image & Himg & _ & Hnth & Hnext).
  vm_compute in Hnth. injection Hnth as <-.
  split; [exact Himg|]. split; [exact Hnext|].
  apply Hneg; [lia | vm_compute; discriminate].
Defined.

(** ** The API client on a good response *)

(** X10: on a response with a status from 200 to 299 whose body decodes,
    [fetchFromAPI] resolves to the decoded id list and [fetchItemDetails] to
    the decoded item (or [null]), unchanged. *)
Theorem api_client_success (net : Net) (url : Endpoint) (id : Z) (status : nat)
    (ids : list Z) (item : option Item) :
  200 <= status <= 299 ->
  (listReply net url = Reply status (Some ids) -> outcome (fetchFromAPI net url) = Ok ids) /\
  (itemReply net id = Reply status (Some item) ->
   outcome (fetchItemDetails net id) = Ok item /\ fetched net id = item).
Proof.
  intros [Hlo Hhi].
  assert (Hok : res_ok status = true).
  { unfold res_ok. apply andb_true_iff. split; now apply Nat.leb_le. }
  split.
  - intros Hreply. simpl. now rewrite Hreply, (request_body_success _ _ Hok).
  - intros Hreply. unfold fetched. simpl.
    now rewrite Hreply, (request_body_success _ _ Hok).
Qed.

Lemma api_client_success_witness :
  outcome (fetchFromAPI net_stories BEST_NEWS_API) = Ok ids7 /\
  exists item, fetched net_stories 3%Z = Some item /\ item_id item = 3%Z.
Proof.
  destruct (@api_client_success net_stories BEST_NEWS_API 3%Z 200 ids7
              (itemReply_body net_stories 3%Z)) as [Hlist Hitem].
  - lia.
  - split; [exact (Hlist eq_refl)|].
    eexists. split; [exact (proj2 (Hitem eq_refl)) | reflexivity].
Defined.

Example scenario_B_domain :
  extractDomain hostname_example "https://www.example.com/x" = Ok "example.com" /\
  extractDomain hostname_example "not a url" = Ok "unknown".
Proof. split; reflexivity. Qed.

(** ** More on the chunked fetcher *)

(** X11: however a call of [fetchItemsWithConcurrency] ends, by returning
    or by an exception of a callback, every request it issued has settled:
    nothing is left in flight, and the settled requests are the issued ones. *)
Theorem requests_all_settled (K : nat) (net : Net) (latency : Z -> nat) (St : Type)
    (ids : list Z) (onItem : Item -> St -> Res bool * St)
    (onDone : nat -> St -> Res unit * St) (w : World St) :
  exists tr,
    events (snd (fetchItemsWithConcurrency K net latency ids onItem onDone w))
      = events w ++ tr /\
    inflight tr = 0%Z /\
    Permutation (settled_of tr) (requests_of tr).
Proof.
  destruct (fetchItemsWithConcurrency_log K net latency ids onItem onDone w)
    as (tr & Hev & Hch).
  exists tr. split; [exact Hev|]. now apply chunked_balanced with (k := K).
Qed.

Lemma run_items_count {St} (onItem : Item -> St -> Res bool * St) (items : list Item) :
  forall n s m s',
    run_items onItem items n s = (Ok m, s') -> n <= m <= n + List.length items.
Proof.
  induction items as [|item rest IH]; intros n s m s' Hrun.
  - injection Hrun as <- _. simpl. lia.
  - cbn [run_items] in Hrun. destruct (onItem item s) as [[valid|e|] s1]; try discriminate.
    apply IH in Hrun. cbn [List.length]. destruct valid; lia.
Qed.

Lemma present_length (net : Net) (ids : list Z) :
  List.length (present net ids) <= List.length ids.
Proof.
  induction ids as [|id ids IH]; [simpl; lia|].
  change (present net (id :: ids)) with
    ((match fetched net id with Some a => [a] | None => [] end) ++ present net ids).
  rewrite length_app. destruct (fetched net id); simpl; lia.
Qed.

Lemma fetchItemsWithConcurrency_count (K : nat) (net : Net) (latency : Z -> nat)
    (St : Type) (ids : list Z) (onItem : Item -> St -> Res bool * St)
    (onDone : nat -> St -> Res unit * St) (w w' : World St) :
  0 < K ->
  fetchItemsWithConcurrency K net latency ids onItem onDone w = (Ok tt, w') ->
  exists tr n s,
    events w' = events w ++ tr ++ [EvDone n] /\
    run_items onItem (present net ids) 0 (user w) = (Ok n, s) /\
    items_of tr = present net ids /\
    requests_of tr = map ITEM_API ids /\
    dones_of tr = [].
Proof.
  intros HK Hrun.
  destruct (fetchItemsWithConcurrency_returned _ _ _ _ _ _ _ Hrun)
    as (n & wl & Hloop & Hdone & Hev).
  destruct (@fetchLoop_result K net latency St ids onItem (S (List.length ids)) 0 0 w HK
              ltac:(nia)) as (tr & Hres & Hlog).
  destruct (fetchLoop_log K net latency ids onItem (S (List.length ids)) 0 0 w)
    as (tr' & Hev' & _ & Hd).
  cbn [skipn] in Hres, Hlog. rewrite Hres in Hloop, Hev'.
  cbn [snd events] in Hev'. apply app_inv_head in Hev'. subst tr'.
  destruct (run_items onItem (present net ids) 0 (user w)) as [r s] eqn:HR.
  cbn [fst snd] in Hloop, Hlog. injection Hloop as -> <-.
  destruct (Hlog n eq_refl) as [Hitems Hreq].
  exists tr, n, s. cbn [events] in Hev. rewrite Hev, <- app_assoc. auto.
Qed.

(** X12: when a call of [fetchItemsWithConcurrency] returns, the count it
    passed to the completion callback is at most the number of items handed
    to the item callback, which is at most the number of ids; the items
    handed over are the fetched ones, in the order of the ids. *)
Theorem valid_count_bounded (K : nat) (net : Net) (latency : Z -> nat) (St : Type)
    (ids : list Z) (onItem : Item -> St -> Res bool * St)
    (onDone : nat -> St -> Res unit * St) (w w' : World St) :
  0 < K ->
  fetchItemsWithConcurrency K net latency ids onItem onDone w = (Ok tt, w') ->
  exists tr n,
    events w' = events w ++ tr ++ [EvDone n] /\
    dones_of tr = [] /\
    items_of tr = present net ids /\
    n <= List.length (items_of tr) /\
    List.length (items_of tr) <= List.length ids.
Proof.
  intros HK Hrun.
  destruct (@fetchItemsWithConcurrency_count K net latency St ids onItem onDone w w'
              HK Hrun) as (tr & n & s & Hev & HR & Hitems & _ & Hd).
  exists tr, n. rewrite Hitems. repeat split; auto.
  - apply run_items_count in HR. lia.
  - apply present_length.
Qed.

Lemma valid_count_bounded_witness :
  exists w' tr n,
    fetchItemsWithConcurrency 3 net_stories ascending ids7 accept_all keep_state
      {| user := 0; events := [] |} = (Ok tt, w') /\
    events w' = tr ++ [EvDone n] /\
    n <= 7.
Proof.
  assert (Hrun : fetchItemsWithConcurrency 3 net_stories ascending ids7 accept_all keep_state
                   {| user := 0; events := [] |}
                 = (Ok tt, snd (fetchItemsWithConcurrency 3 net_stories ascending ids7
                                  accept_all keep_state {| user := 0; events := [] |})))
    by reflexivity.
  destruct (@valid_count_bounded 3 net_stories ascending nat ids7 accept_all keep_state
              _ _ ltac:(lia) Hrun) as (tr & n & Hev & _ & _ & Hn & Hlen).
  eexists. exists tr, n. split; [exact Hrun|]. split; [exact Hev|].
  simpl in Hlen. lia.
Defined.

(** ** The ids of a page *)

Lemma slice_nth {A} (l : list A) (i k j : nat) :
  j < k -> nth_error (slice l i (i + k)) j = nth_error l (i + j).
Proof.
  intros Hj. unfold slice. replace (i + k - i) with k by lia.
  rewrite nth_error_firstn.
  destruct (Nat.ltb_spec j k); [|lia]. apply nth_error_skipn.
Qed.

(** X13: a call of [loadMore...News] that passes the guard fetches the ids
    at positions [p * ITEMS_PER_PAGE + j], [j < ITEMS_PER_PAGE], of the list,
    [p] being the cursor: at least one id, and [ITEMS_PER_PAGE] of them
    except on a shorter last page, which is cut at the end of the list. *)
Theorem page_ids_positions (cst : Constants) (c c' : Controller) (batchIds : list Z) :
  0 < ITEMS_PER_PAGE cst ->
  loadMore_enter cst c = (Some batchIds, c') ->
  (forall j, j < ITEMS_PER_PAGE cst ->
     nth_error batchIds j = nth_error (newsIds c) (newsPage c * ITEMS_PER_PAGE cst + j)) /\
  List.length batchIds =
    Nat.min (ITEMS_PER_PAGE cst)
            (List.length (newsIds c) - newsPage c * ITEMS_PER_PAGE cst) /\
  1 <= List.length batchIds <= ITEMS_PER_PAGE cst.
Proof.
  intros HP Henter.
  destruct (loadMore_enter_Some _ _ Henter) as (_ & Hin & _).
  unfold loadMore_enter in Henter.
  destruct (newsLoading c || (List.length (newsIds c) <=? newsPage c * ITEMS_PER_PAGE cst));
    [discriminate|].
  injection Henter as <- _.
  assert (Hlen : List.length
                   (slice (newsIds c) (newsPage c * ITEMS_PER_PAGE cst)
                      (newsPage c * ITEMS_PER_PAGE cst + ITEMS_PER_PAGE cst))
                 = Nat.min (ITEMS_PER_PAGE cst)
                     (List.length (newsIds c) - newsPage c * ITEMS_PER_PAGE cst)).
  { unfold slice. rewrite length_firstn, length_skipn. lia. }
  split; [|split; [exact Hlen | rewrite Hlen; lia]].
  intros j Hj. now apply slice_nth.
Qed.

Lemma page_ids_positions_witness :
  exists batchIds c',
    loadMore_enter script_js
      {| newsIds := ids7; newsPage := 1; newsLoading := false;
         container := []; loadBtn := display_block |} = (Some batchIds, c') /\
    List.length batchIds = 1 /\
    nth_error batchIds 0 = Some 7%Z.
Proof.
  eexists. eexists. split; [reflexivity|].
  destruct (@page_ids_positions script_js
              {| newsIds := ids7; newsPage := 1; newsLoading := false;
                 container := []; loadBtn := display_block |} _ _
              ltac:(simpl; lia) eq_refl) as (Hnth & Hlen & _).
  split; [exact Hlen|]. exact (Hnth 0 ltac:(simpl; lia)).
Defined.

(** ** The requests of successive pages *)

Lemma firstn_sum {A} (x y : nat) :
  forall l : list A, firstn (x + y) l = firstn x l ++ firstn y (skipn x l).
Proof.
  induction x as [|x IH]; intros l; [reflexivity|].
  destruct l as [|a l]; cbn [Nat.add firstn skipn app].
  - now rewrite firstn_nil.
  - now rewrite IH.
Qed.

Lemma slice_app {A} (l : list A) (a b c : nat) :
  a <= b -> b <= c -> slice l a b ++ slice l b c = slice l a c.
Proof.
  intros Hab Hbc. unfold slice.
  replace (c - a) with ((b - a) + (c - b)) by lia.
  rewrite firstn_sum, skipn_skipn. now replace (b - a + a) with b by lia.
Qed.

Lemma slice_past_end {A} (l : list A) (a b : nat) :
  List.length l <= a -> slice l a b = [].
Proof. intros Hle. unfold slice. rewrite skipn_all2 by lia. apply firstn_nil. Qed.

(** What a call that returns adds to the requests of the log. *)
Lemma loadMore_requests cst feed net latency (w w' : World Controller) :
  0 < MAX_CONCURRENT_REQUESTS cst ->
  newsLoading (user w) = false ->
  loadMore cst feed net latency w = (Ok tt, w') ->
  requests_of (events w') =
    requests_of (events w) ++ map ITEM_API (page_ids cst (user w)).
Proof.
  intros HK Hload Hrun. unfold loadMore in Hrun.
  destruct (exhausted cst (user w)) eqn:Hex.
  - rewrite (@loadMore_enter_closed cst (user w) (or_intror Hex)) in Hrun.
    injection Hrun as <-. unfold page_ids. rewrite slice_past_end.
    + cbn [map]. now rewrite app_nil_r.
    + unfold exhausted in Hex. now apply Nat.leb_le in Hex.
  - rewrite (@loadMore_enter_open cst (user w) Hload Hex) in Hrun.
    destruct (fetchPage cst feed net latency (page_ids cst (user w))
                {| user := set_loading true (user w); events := events w |})
      as [[[]|e|] wf] eqn:Hfetch; try discriminate.
    injection Hrun as <-. unfold fetchPage in Hfetch.
    destruct (@fetchItemsWithConcurrency_count (MAX_CONCURRENT_REQUESTS cst) net latency
                Controller (page_ids cst (user w)) (onItemFetched cst feed)
                (onBatchComplete cst) _ _ HK Hfetch)
      as (tr & n & s & Hev & _ & _ & Hreq & _).
    cbn [events] in *. rewrite Hev, !requests_of_app, Hreq. cbn.
    now rewrite app_nil_r.
Qed.

Lemma advances_requests cst feed (envs : list Env) :
  forall (w w' : World Controller),
    0 < MAX_CONCURRENT_REQUESTS cst ->
    newsLoading (user w) = false ->
    advances cst feed envs w = (Ok tt, w') ->
    requests_of (events w') =
      requests_of (events w)
      ++ map ITEM_API
           (slice (newsIds (user w))
              (newsPage (user w) * ITEMS_PER_PAGE cst)
              ((newsPage (user w) + List.length envs) * ITEMS_PER_PAGE cst)).
Proof.
  induction envs as [|e rest IH]; intros w w' HK Hload Hrun.
  - injection Hrun as <-. cbn [List.length]. rewrite Nat.add_0_r.
    unfold slice. rewrite Nat.sub_diag. cbn. now rewrite app_nil_r.
  - cbn [advances] in Hrun. unfold bind at 1 in Hrun.
    destruct (loadMore cst feed (env_net e) (env_latency e) w) as [[[]|x|] w1] eqn:Hcall;
      try discriminate.
    destruct (loadMore_globals _ _ _ _ _ Hcall Hload) as (Hids & Hok).
    destruct (Hok eq_refl) as (Hload1 & Hpage1).
    rewrite (IH w1 w' HK Hload1 Hrun),
      (@loadMore_requests cst feed (env_net e) (env_latency e) w w1 HK Hload Hcall).
    rewrite <- app_assoc, <- map_app. f_equal. f_equal.
    rewrite Hids, Hpage1. cbn [List.length]. unfold page_ids.
    destruct (exhausted cst (user w)) eqn:Hex.
    + unfold exhausted in Hex. apply Nat.leb_le in Hex.
      now rewrite !slice_past_end by lia.
    + replace (newsPage (user w) * ITEMS_PER_PAGE cst + ITEMS_PER_PAGE cst)
        with ((newsPage (user w) + 1) * ITEMS_PER_PAGE cst) by lia.
      replace (newsPage (user w) + S (List.length rest))
        with (newsPage (user w) + 1 + List.length rest) by lia.
      apply slice_app; nia.
Qed.

(** X14: from cursor 0, after [n] calls of [loadMore...News] that returned,
    the item requests added to the log are those of the first
    [n * ITEMS_PER_PAGE] ids of the list, each once and in the order of the
    list: no id is requested twice and none is skipped; from
    ceil(L / ITEMS_PER_PAGE) calls on that is the whole list. *)
Theorem pages_request_each_id_once cst feed (envs : list Env) (w w' : World Controller) :
  0 < ITEMS_PER_PAGE cst ->
  0 < MAX_CONCURRENT_REQUESTS cst ->
  newsPage (user w) = 0 ->
  newsLoading (user w) = false ->
  advances cst feed envs w = (Ok tt, w') ->
  requests_of (events w') =
    requests_of (events w)
    ++ map ITEM_API (firstn (List.length envs * ITEMS_PER_PAGE cst) (newsIds (user w))) /\
  (ceil_div (List.length (newsIds (user w))) (ITEMS_PER_PAGE cst) <= List.length envs ->
   requests_of (events w') = requests_of (events w) ++ map ITEM_API (newsIds (user w))).
Proof.
  intros HP HK Hpage Hload Hrun.
  pose proof (@advances_requests cst feed envs w w' HK Hload Hrun) as Hreq.
  rewrite Hpage in Hreq. cbn [Nat.add Nat.mul] in Hreq.
  unfold slice in Hreq. rewrite Nat.sub_0_r in Hreq. cbn [skipn] in Hreq.
  split; [exact Hreq|].
  intros Hceil. rewrite Hreq. f_equal. f_equal. apply firstn_all2.
  pose proof (@exhausted_iff_ceil cst
                {| newsIds := newsIds (user w); newsPage := List.length envs;
                   newsLoading := false; container := []; loadBtn := display_none |} HP)
    as Hex.
  unfold exhausted in Hex. cbn [newsIds newsPage] in Hex.
  apply Hex in Hceil. now apply Nat.leb_le in Hceil.
Qed.

Lemma pages_request_each_id_once_witness :
  exists w',
    advances script_js Best [env_stories; env_down; env_stories] (loaded ids7) = (Ok tt, w') /\
    requests_of (events w') = map ITEM_API ids7.
Proof.
  eexists. split; [vm_compute; reflexivity|].
  refine (proj2 (@pages_request_each_id_once script_js Best
                   [env_stories; env_down; env_stories] (loaded ids7) _ _ _ _ _ _) _).
  - simpl; lia.
  - simpl; lia.
  - reflexivity.
  - reflexivity.
  - vm_compute. reflexivity.
  - vm_compute. lia.
Defined.

(** ** A page that makes the render function throw *)

Lemma onItemFetched_loadBtn (cst : Constants) (feed : Feed) (item : Item) (c : Controller) :
  loadBtn (snd (onItemFetched cst feed item c)) = loadBtn c.
Proof.
  unfold onItemFetched, renderNewsItem.
  destruct (isValid cst feed item); [|reflexivity].
  destruct (escapeHTML (item_title item)); reflexivity.
Qed.

Lemma run_items_unsafe (cst : Constants) (feed : Feed) (items : list Item) :
  forall n c,
    forallb (fun item => negb (crashes cst feed item)) items = false ->
    fst (run_items (onItemFetched cst feed) items n c) = Throw TypeError.
Proof.
  induction items as [|item rest IH]; intros n c Hunsafe; [discriminate|].
  cbn [forallb] in Hunsafe. cbn [run_items]. unfold crashes in Hunsafe.
  destruct (isValid cst feed item) eqn:Hvalid.
  - destruct (item_title item) as [t|] eqn:Htitle.
    + rewrite (@onItemFetched_valid cst feed item c t Hvalid Htitle). now apply IH.
    + now rewrite (@onItemFetched_untitled cst feed item c Hvalid Htitle).
  - rewrite (@onItemFetched_invalid cst feed item c Hvalid). now apply IH.
Qed.

(** The whole call when the callbacks do not run to the end. *)
Lemma fetchItemsWithConcurrency_thrown (K : nat) (net : Net) (latency : Z -> nat)
    (St : Type) (ids : list Z) (onItem : Item -> St -> Res bool * St)
    (onDone : nat -> St -> Res unit * St) (w : World St) (e : Exn) :
  0 < K ->
  fst (run_items onItem (present net ids) 0 (user w)) = Throw e ->
  exists tr,
    fetchItemsWithConcurrency K net latency ids onItem onDone w =
      (Throw e, {| user := snd (run_items onItem (present net ids) 0 (user w));
                   events := events w ++ tr |}) /\
    dones_of tr = [].
Proof.
  intros HK Hthrow.
  destruct (@fetchLoop_result K net latency St ids onItem (S (List.length ids)) 0 0 w HK
              ltac:(nia)) as (tr & Hres & _).
  destruct (fetchLoop_log K net latency ids onItem (S (List.length ids)) 0 0 w)
    as (tr' & Hev' & _ & Hd).
  cbn [skipn] in Hres. rewrite Hres in Hev'.
  cbn [snd events] in Hev'. apply app_inv_head in Hev'. subst tr'.
  exists tr. split; [|exact Hd].
  unfold fetchItemsWithConcurrency, bind. rewrite Hres, Hthrow. reflexivity.
Qed.

Lemma loadMore_rejected cst feed net latency (w : World Controller) :
  0 < MAX_CONCURRENT_REQUESTS cst ->
  newsLoading (user w) = false ->
  exhausted cst (user w) = false ->
  page_safe cst feed net (page_ids cst (user w)) = false ->
  exists w' tr,
    loadMore cst feed net latency w = (Throw TypeError, w') /\
    newsIds (user w') = newsIds (user w) /\
    newsPage (user w') = newsPage (user w) /\
    newsLoading (user w') = true /\
    loadBtn (user w') = loadBtn (user w) /\
    events w' = events w ++ tr /\
    dones_of tr = [].
Proof.
  intros HK Hload Hopen Hunsafe. unfold page_safe in Hunsafe.
  pose proof (@run_items_unsafe cst feed (present net (page_ids cst (user w))) 0
                (set_loading true (user w)) Hunsafe) as Hthrow.
  destruct (@fetchItemsWithConcurrency_thrown (MAX_CONCURRENT_REQUESTS cst) net latency
              Controller (page_ids cst (user w)) (onItemFetched cst feed)
              (onBatchComplete cst)
              {| user := set_loading true (user w); events := events w |} TypeError
              HK Hthrow) as (tr & Hrun & Hd).
  cbn [user events] in Hrun.
  pose proof (@run_items_preserves Controller (onItemFetched cst feed)
                (fun c => globals c = (newsIds (user w), newsPage (user w), true)
                          /\ loadBtn c = loadBtn (user w))
                (fun item s Hs =>
                   conj (eq_trans (onItemFetched_globals cst feed item s) (proj1 Hs))
                        (eq_trans (onItemFetched_loadBtn cst feed item s) (proj2 Hs)))
                (present net (page_ids cst (user w))) 0 (set_loading true (user w))
                (conj eq_refl eq_refl)) as [Hg Hbtn].
  unfold globals in Hg. injection Hg as Hids Hpage Hflag.
  eexists. exists tr. split.
  - unfold loadMore. rewrite (@loadMore_enter_open cst (user w) Hload Hopen).
    unfold fetchPage. rewrite Hrun. reflexivity.
  - cbn [user events]. repeat split; auto.
Qed.

(** X15: when a fetched item of the page passes the check and has no title,
    the call of [loadMore...News] is rejected with a TypeError: the cursor
    and the id list are as before, the loading flag stays set, the button is
    not touched and the completion callback is never called. *)
Theorem untitled_item_rejects_page cst feed net latency (w : World Controller) :
  0 < MAX_CONCURRENT_REQUESTS cst ->
  newsLoading (user w) = false ->
  exhausted cst (user w) = false ->
  page_safe cst feed net (page_ids cst (user w)) = false ->
  exists w' tr,
    loadMore cst feed net latency w = (Throw TypeError, w') /\
    newsIds (user w') = newsIds (user w) /\
    newsPage (user w') = newsPage (user w) /\
    newsLoading (user w') = true /\
    loadBtn (user w') = loadBtn (user w) /\
    events w' = events w ++ tr /\
    dones_of tr = [].
Proof. exact (@loadMore_rejected cst feed net latency w). Qed.

Lemma untitled_item_rejects_page_witness :
  exists w',
    loadMore script_js Latest net_untitled ascending (loaded ids7) = (Throw TypeError, w') /\
    newsPage (user w') = 0 /\ newsLoading (user w') = true.
Proof.
  destruct (@untitled_item_rejects_page script_js Latest net_untitled ascending (loaded ids7))
    as (w' & tr & Hrun & _ & Hpage & Hflag & _).
  - simpl; lia.
  - reflexivity.
  - reflexivity.
  - reflexivity.
  - exists w'. repeat split; assumption.
Defined.

(** ** Feeds that cannot move *)

(** X16: a feed in which no call is suspended and the guard fails, because
    the list is used up or because the loading flag was left set, cannot
    leave that state: the only step is a call that returns at once and
    changes nothing.  A reachable feed gets there when the fetch of a page is
    rejected by an exception. *)
Theorem stuck_is_final cst feed (ids : list Z) (cfg cfg' : Config) (l : Label) :
  0 < ITEMS_PER_PAGE cst ->
  (stuck cst cfg -> step cst feed cfg l cfg' -> l = LAdvance /\ cfg' = cfg) /\
  (reachable cst feed ids cfg ->
   forall e, l = LSettle (Throw e) -> step cst feed cfg l cfg' ->
             stuck cst cfg' /\ newsLoading (user (world cfg')) = true).
Proof.
  intros HP. split.
  - intros [Hnone Hguard] Hstep.
    destruct Hstep
      as [cfg Hret | cfg b c Hsus | cfg b rest env w Hq Hrun | cfg b rest env x w Hq Hrun];
      try congruence.
    + auto.
    + exfalso. apply loadMore_enter_Some in Hsus as (Hopen & Hin & _).
      destruct Hguard as [Hflag | Hex]; [congruence|].
      unfold exhausted in Hex. apply Nat.leb_le in Hex. lia.
  - intros Hreach e -> Hstep.
    destruct (reachable_latch_inv HP Hreach) as (_ & _ & Hlatch).
    inversion Hstep as [| | | cfg0 b rest env x w Hq Hrun]; subst.
    pose proof (fetchPage_globals cst feed (env_net env) (env_latency env) b (world cfg))
      as Hg.
    rewrite Hrun in Hg. unfold globals in Hg. injection Hg as _ _ Hflag.
    destruct Hlatch as [Hnone | ((b' & Hone) & Hclosed & _)]; [congruence|].
    rewrite Hq in Hone. injection Hone as _ ->.
    cbn [world suspended user] in *. rewrite Hclosed in Hflag.
    split; [|exact Hflag]. split; [reflexivity | now left].
Qed.

Lemma stuck_is_final_witness :
  exists cfg',
    step script_js Best first_page_pending (LSettle (Throw TypeError)) cfg' /\
    stuck script_js cfg' /\
    (forall l cfg'', step script_js Best cfg' l cfg'' -> l = LAdvance /\ cfg'' = cfg').
Proof.
  assert (HP : 0 < ITEMS_PER_PAGE script_js) by (simpl; lia).
  assert (Hreach : reachable script_js Best ids7 first_page_pending).
  { apply reach_step with (cfg := {| world := loaded ids7; suspended := [] |}) (l := LAdvance).
    - apply reach_init; reflexivity.
    - apply (@step_suspend script_js Best {| world := loaded ids7; suspended := [] |}
               [1; 2; 3; 4; 5; 6]%Z (user (loading ids7))).
      reflexivity. }
  assert (Hstep : exists cfg',
             step script_js Best first_page_pending (LSettle (Throw TypeError)) cfg').
  { eexists. eapply step_reject with (env := env_untitled);
      [reflexivity | vm_compute; reflexivity]. }
  destruct Hstep as (cfg' & Hstep).
  destruct (@stuck_is_final script_js Best ids7 first_page_pending cfg'
              (LSettle (Throw TypeError)) HP) as [_ Hdead].
  destruct (Hdead Hreach TypeError eq_refl Hstep) as [Hstuck _].
  exists cfg'. split; [exact Hstep|]. split; [exact Hstuck|].
  intros l cfg'' Hnext.
  destruct (@stuck_is_final script_js Best ids7 cfg' cfg'' l HP) as [Hfinal _].
  now apply Hfinal.
Defined.

(** ** The latch *)

Lemma loadMore_enter_ids (cst : Constants) (c c' : Controller) (batchIds : list Z) :
  loadMore_enter cst c = (Some batchIds, c') ->
  batchIds = page_ids cst c /\ c' = set_loading true c /\ newsLoading c = false.
Proof.
  unfold loadMore_enter. destruct (newsLoading c); [discriminate|].
  destruct (List.length (newsIds c) <=? newsPage c * ITEMS_PER_PAGE cst); [discriminate|].
  cbn [orb]. intros [= <- <-]. auto.
Qed.

(** X17: in every state a feed reaches from its loaded id list, the id list
    is the loaded one, and either no call is suspended or exactly one is,
    with the loading flag set and waiting for the ids of the page at the
    cursor; so a clear loading flag means that nothing is being fetched. *)
Theorem one_fetch_at_a_time cst feed (ids : list Z) (cfg : Config) :
  reachable cst feed ids cfg ->
  one_page_pending cst ids cfg /\
  (newsLoading (user (world cfg)) = false -> suspended cfg = []).
Proof.
  intros Hreach.
  assert (Hinv : one_page_pending cst ids cfg).
  { induction Hreach as [w Hids Hpage Hload | cfg l cfg' Hreach IH Hstep].
    - split; [exact Hids | now left].
    - destruct IH as (Hids & Hlatch).
      destruct Hstep
        as [cfg Hret | cfg b c Hsus | cfg b rest env w Hq Hrun | cfg b rest env e w Hq Hrun].
      + split; assumption.
      + apply loadMore_enter_ids in Hsus as (-> & -> & Hopen).
        destruct Hlatch as [Hnone | [_ Hclosed]]; [|congruence].
        split; [exact Hids|]. right. cbn. rewrite Hnone. auto.
      + pose proof (fetchPage_globals cst feed (env_net env) (env_latency env) b (world cfg))
          as Hg.
        rewrite Hrun in Hg. unfold globals in Hg. injection Hg as Hids' _ _.
        destruct Hlatch as [Hnone | [Hone _]]; [congruence|].
        rewrite Hq in Hone. injection Hone as _ ->.
        split; [cbn; congruence | now left].
      + pose proof (fetchPage_globals cst feed (env_net env) (env_latency env) b (world cfg))
          as Hg.
        rewrite Hrun in Hg. unfold globals in Hg. injection Hg as Hids' _ _.
        destruct Hlatch as [Hnone | [Hone _]]; [congruence|].
        rewrite Hq in Hone. injection Hone as _ ->.
        split; [cbn; congruence | now left]. }
  split; [exact Hinv|].
  intros Hopen. destruct Hinv as (_ & [Hnone | [_ Hclosed]]); congruence.
Qed.

Lemma one_fetch_at_a_time_witness :
  one_page_pending script_js ids7 first_page_pending /\
  suspended first_page_pending = [page_ids script_js (user (world first_page_pending))].
Proof.
  assert (Hreach : reachable script_js Best ids7 first_page_pending).
  { apply reach_step with (cfg := {| world := loaded ids7; suspended := [] |}) (l := LAdvance).
    - apply reach_init; reflexivity.
    - apply (@step_suspend script_js Best {| world := loaded ids7; suspended := [] |}
               [1; 2; 3; 4; 5; 6]%Z (user (loading ids7))).
      reflexivity. }
  split; [exact (proj1 (one_fetch_at_a_time Hreach)) | reflexivity].
Defined.

(** ** What gets rendered *)

Lemma node_title_node_of (feed : Feed) (item : Item) (title : string) :
  node_title (node_of feed item title) = title.
Proof. destruct feed; reflexivity. Qed.

Lemma nodes_of_In cst feed (items : list Item) (n : Node) :
  In n (nodes_of cst feed items) ->
  exists item t,
    In item items /\ isValid cst feed item = true /\ item_title item = Some t /\
    n = node_of feed item (replace_special t).
Proof.
  unfold nodes_of. rewrite in_flat_map. intros (item & Hitem & Hn).
  destruct (isValid cst feed item) eqn:Hvalid; [|destruct Hn].
  destruct (item_title item) as [t|] eqn:Htitle; [|destruct Hn].
  destruct Hn as [<- | []]. exists item, t. auto.
Qed.

Lemma loadMore_container cst feed net latency (w : World Controller) :
  0 < MAX_CONCURRENT_REQUESTS cst ->
  exists k,
    container (user (snd (loadMore cst feed net latency w))) =
      container (user w)
      ++ nodes_of cst feed (firstn k (present net (page_ids cst (user w)))).
Proof.
  intros HK.
  destruct (newsLoading (user w)) eqn:Hload;
    [|destruct (exhausted cst (user w)) eqn:Hopen].
  - exists 0. unfold loadMore.
    rewrite (@loadMore_enter_closed cst (user w) (or_introl Hload)).
    cbn. now rewrite app_nil_r.
  - exists 0. unfold loadMore.
    rewrite (@loadMore_enter_closed cst (user w) (or_intror Hopen)).
    cbn. now rewrite app_nil_r.
  - destruct (@loadMore_outcome cst feed net latency w HK Hload Hopen) as [_ Hu].
    destruct (batch_outcome_container cst feed (present net (page_ids cst (user w)))
                (set_loading true (user w))) as (k & Hk & _).
    exists k. rewrite Hu. cbn [container set_loading] in Hk.
    destruct (fst (batch_outcome (onItemFetched cst feed) (onBatchComplete cst)
                     (present net (page_ids cst (user w))) (set_loading true (user w))));
      exact Hk.
Qed.

(** X18: whatever the network answers and however the call ends, every node
    a call of [loadMore...News] adds to its container belongs to a fetched
    item of the page that passed the check, and carries that item's title
    escaped: no [<], [>], double quote or single quote occurs in it. *)
Theorem rendered_titles_escaped cst feed net latency (w : World Controller) (n : Node) :
  0 < MAX_CONCURRENT_REQUESTS cst ->
  In n (container (user (snd (loadMore cst feed net latency w)))) ->
  In n (container (user w)) \/
  (exists item t,
     In item (present net (page_ids cst (user w))) /\
     isValid cst feed item = true /\
     item_title item = Some t /\
     escapeHTML (Some t) = Ok (node_title n)) /\
  (forall c, In c (list_ascii_of_string (node_title n)) -> markup c = false).
Proof.
  intros HK Hin.
  destruct (@loadMore_container cst feed net latency w HK) as (k & Hk).
  rewrite Hk in Hin. apply in_app_or in Hin as [Hold | Hnew]; [now left|].
  right. apply nodes_of_In in Hnew as (item & t & Hitem & Hvalid & Htitle & ->).
  rewrite node_title_node_of. split.
  - exists item, t. repeat split; auto.
    rewrite <- (firstn_skipn k (present net (page_ids cst (user w)))).
    apply in_or_app. now left.
  - intros c Hc. pose proof (replace_special_clean t) as Hclean.
    rewrite forallb_forall in Hclean. apply Hclean in Hc.
    now apply negb_true_iff in Hc.
Qed.

Lemma rendered_titles_escaped_witness :
  exists n,
    nth_error (container (user (snd (loadMore script_js Latest net_markup ascending
                                       (loaded ids7))))) 0 = Some n /\
    node_title n = "&lt;img src=x onerror=&#039;alert(1)&#039;&gt; &amp; more" /\
    forallb (fun c => negb (markup c)) (list_ascii_of_string (node_title n)) = true.
Proof.
  eexists. split; [reflexivity|]. split; [reflexivity|].
  apply forallb_forall. intros c Hc. apply negb_true_iff.
  destruct (@rendered_titles_escaped script_js Latest net_markup ascending (loaded ids7)
              (ListEntry "&lt;img src=x onerror=&#039;alert(1)&#039;&gt; &amp; more"
                 (Some 1700000000%Z) (Some "https://www.example.com/x")))
    as [Hold | [_ Hclean]].
  - simpl; lia.
  - left. reflexivity.
  - destruct Hold.
  - now apply Hclean.
Defined.

(** ** Failing requests *)

Lemma present_all_failed (net : Net) (ids : list Z) :
  (forall id, In id ids -> failed (itemReply net id)) -> present net ids = [].
Proof.
  induction ids as [|id ids IH]; intros Hfail; [reflexivity|].
  change (present net (id :: ids)) with
    ((match fetched net id with Some a => [a] | None => [] end) ++ present net ids).
  unfold fetched at 1. rewrite (fetchItemDetails_failed net id (Hfail id (or_introl eq_refl))).
  cbn [app]. apply IH. intros id' Hin. apply Hfail. now right.
Qed.

(** X19: when every item request of a page fails, the call of
    [loadMore...News] still returns: nothing is rendered, the completion
    callback gets the count 0, the cursor moves on by one and the loading
    flag is cleared; failing item requests never stop the pagination. *)
Theorem failed_items_still_paginate cst feed net latency (w : World Controller) :
  0 < MAX_CONCURRENT_REQUESTS cst ->
  newsLoading (user w) = false ->
  exhausted cst (user w) = false ->
  (forall id, In id (page_ids cst (user w)) -> failed (itemReply net id)) ->
  exists w' tr,
    loadMore cst feed net latency w = (Ok tt, w') /\
    container (user w') = container (user w) /\
    newsPage (user w') = newsPage (user w) + 1 /\
    newsLoading (user w') = false /\
    events w' = events w ++ tr ++ [EvDone 0] /\
    items_of tr = [] /\
    requests_of tr = map ITEM_API (page_ids cst (user w)).
Proof.
  intros HK Hload Hopen Hfail.
  pose proof (present_all_failed net (page_ids cst (user w)) Hfail) as Hnone.
  assert (Hsafe : page_safe cst feed net (page_ids cst (user w)) = true)
    by (unfold page_safe; now rewrite Hnone).
  destruct (@loadMore_completes cst feed net latency w HK Hload Hopen Hsafe)
    as (tr & Hrun & Hitems & Hreq & _).
  eexists. exists tr. split; [exact Hrun|].
  cbn [user events page_done container newsPage newsLoading].
  unfold valid_count. rewrite Hnone in *. cbn. rewrite app_nil_r. auto 7.
Qed.

Lemma failed_items_still_paginate_witness :
  exists w',
    loadMore script_js Best net_down ascending (loaded ids7) = (Ok tt, w') /\
    container (user w') = [] /\ newsPage (user w') = 1.
Proof.
  destruct (@failed_items_still_paginate script_js Best net_down ascending (loaded ids7))
    as (w' & tr & Hrun & Hnone & Hpage & _).
  - simpl; lia.
  - reflexivity.
  - reflexivity.
  - intros id _. simpl. now left.
  - exists w'. repeat split; assumption.
Defined.

(** ** Initialization *)

Lemma initializeNews_empty cst feed net latency (w : World Controller) :
  outcome (fetchFromAPI net (feed_api feed)) = Ok [] ->
  initializeNews cst feed net latency w =
    (Ok tt, {| user := user w;
               events := events w ++ [EvFetch (feed_api feed); EvSettled (feed_api feed)] |}).
Proof.
  intros Hlist. destruct (initializeNews_cases cst feed net latency w) as (ids & Hids & Hinit).
  rewrite Hlist in Hids. injection Hids as <-. exact Hinit.
Qed.

Lemma fetchFromAPI_failed (net : Net) (url : Endpoint) :
  failed (listReply net url) -> outcome (fetchFromAPI net url) = Ok [].
Proof.
  intros Hf. destruct (request_body_failed _ Hf) as [e He]. simpl. now rewrite He.
Qed.

(** X20: when the request for the id list fails, or the list comes back
    empty, [initialize...News] returns without touching the feed: ids, cursor,
    flag, container and button are as before and the list request is the only
    request made.  A feed whose id list is still empty then ignores every
    call of [loadMore...News]: nothing is retried. *)
Theorem initialize_without_ids cst feed net latency (w : World Controller) :
  (failed (listReply net (feed_api feed)) \/
   exists status, listReply net (feed_api feed) = Reply status (Some [])) ->
  initializeNews cst feed net latency w =
    (Ok tt, {| user := user w;
               events := events w ++ [EvFetch (feed_api feed); EvSettled (feed_api feed)] |}) /\
  (newsIds (user w) = [] ->
   forall net' latency',
     loadMore cst feed net' latency' (snd (initializeNews cst feed net latency w))
     = (Ok tt, snd (initializeNews cst feed net latency w))).
Proof.
  intros Hlist.
  assert (Hempty : outcome (fetchFromAPI net (feed_api feed)) = Ok []).
  { destruct Hlist as [Hfail | [status Hreply]].
    - now apply fetchFromAPI_failed.
    - simpl. rewrite Hreply. unfold request_body. simpl.
      destruct (res_ok status); reflexivity. }
  pose proof (@initializeNews_empty cst feed net latency w Hempty) as Hinit.
  split; [exact Hinit|].
  intros Hnone net' latency'. rewrite Hinit. cbn [snd].
  unfold loadMore. cbn [user].
  rewrite (@loadMore_enter_closed cst (user w)); [reflexivity|].
  right. unfold exhausted. now rewrite Hnone.
Qed.

Lemma initialize_without_ids_witness :
  initializeNews script_js Best net_down ascending (fresh []) =
    (Ok tt, {| user := user (fresh []);
               events := [EvFetch BEST_NEWS_API; EvSettled BEST_NEWS_API] |}) /\
  loadMore script_js Best net_stories ascending
    (snd (initializeNews script_js Best net_down ascending (fresh [])))
  = (Ok tt, snd (initializeNews script_js Best net_down ascending (fresh []))).
Proof.
  destruct (@initialize_without_ids script_js Best net_down ascending (fresh []))
    as [Hinit Hlater].
  - left. simpl. exact I.
  - split; [exact Hinit|].
    apply Hlater. reflexivity.
Defined.

Lemma initialize_first_page_state cst feed net latency (w : World Controller)
    (status : nat) (ids : list Z) :
  0 < MAX_CONCURRENT_REQUESTS cst ->
  newsLoading (user w) = false ->
  200 <= status <= 299 ->
  listReply net (feed_api feed) = Reply status (Some ids) ->
  ids <> [] ->
  page_safe cst feed net (firstn (ITEMS_PER_PAGE cst) ids) = true ->
  exists w',
    initializeNews cst feed net latency w = (Ok tt, w') /\
    newsIds (user w') = ids /\
    newsPage (user w') = 1.
Proof.
  intros HK Hload [Hlo Hhi] Hreply Hne Hsafe.
  assert (Hok : res_ok status = true).
  { unfold res_ok. apply andb_true_iff. split; now apply Nat.leb_le. }
  destruct (initializeNews_cases cst feed net latency w) as (ids' & Hids & Hinit).
  simpl in Hids. rewrite Hreply, (request_body_success _ _ Hok) in Hids.
  injection Hids as <-.
  destruct ids as [|id rest]; [congruence|].
  set (w0 := {| user := set_page 0 (set_ids (id :: rest) (user w));
                events := events w ++ [EvFetch (feed_api feed); EvSettled (feed_api feed)] |})
    in *.
  assert (Hpage : page_ids cst (user w0) = firstn (ITEMS_PER_PAGE cst) (id :: rest)).
  { unfold page_ids, slice. cbn [user w0 newsIds newsPage set_page set_ids Nat.mul Nat.add skipn].
    now rewrite Nat.sub_0_r. }
  destruct (@loadMore_completes cst feed net latency w0 HK) as (tr & Hrun & _).
  - exact Hload.
  - reflexivity.
  - now rewrite Hpage.
  - eexists. split; [rewrite Hinit; exact Hrun|]. split; reflexivity.
Qed.

(** X21: when the id list arrives and is not empty, [initialize...News]
    stores it, resets the cursor and fetches the first page: if no item of
    that page makes the render function throw, the call returns with the
    list stored, the cursor at 1 and the flag clear, the container holding
    the nodes of the page, and the requests made are the list request
    followed by those of the first [ITEMS_PER_PAGE] ids. *)
Theorem initialize_first_page cst feed net latency (w : World Controller)
    (status : nat) (ids : list Z) :
  0 < MAX_CONCURRENT_REQUESTS cst ->
  newsLoading (user w) = false ->
  200 <= status <= 299 ->
  listReply net (feed_api feed) = Reply status (Some ids) ->
  ids <> [] ->
  page_safe cst feed net (firstn (ITEMS_PER_PAGE cst) ids) = true ->
  exists w',
    initializeNews cst feed net latency w = (Ok tt, w') /\
    newsIds (user w') = ids /\
    newsPage (user w') = 1 /\
    newsLoading (user w') = false /\
    container (user w') =
      container (user w)
      ++ nodes_of cst feed (present net (firstn (ITEMS_PER_PAGE cst) ids)) /\
    requests_of (events w') =
      requests_of (events w)
      ++ feed_api feed :: map ITEM_API (firstn (ITEMS_PER_PAGE cst) ids).
Proof.
  intros HK Hload [Hlo Hhi] Hreply Hne Hsafe.
  assert (Hok : res_ok status = true).
  { unfold res_ok. apply andb_true_iff. split; now apply Nat.leb_le. }
  destruct (initializeNews_cases cst feed net latency w) as (ids' & Hids & Hinit).
  simpl in Hids. rewrite Hreply, (request_body_success _ _ Hok) in Hids.
  injection Hids as <-.
  destruct ids as [|id rest]; [congruence|].
  set (w0 := {| user := set_page 0 (set_ids (id :: rest) (user w));
                events := events w ++ [EvFetch (feed_api feed); EvSettled (feed_api feed)] |})
    in *.
  assert (Hpage : page_ids cst (user w0) = firstn (ITEMS_PER_PAGE cst) (id :: rest)).
  { unfold page_ids, slice. cbn [user w0 newsIds newsPage set_page set_ids Nat.mul Nat.add skipn].
    now rewrite Nat.sub_0_r. }
  destruct (@loadMore_completes cst feed net latency w0 HK) as (tr & Hrun & _ & Hreq & _).
  - exact Hload.
  - reflexivity.
  - now rewrite Hpage.
  - rewrite Hpage in Hrun. eexists. split; [rewrite Hinit; exact Hrun|].
    cbn [user events page_done newsIds newsPage newsLoading container].
    rewrite ?Hpage. split; [reflexivity|]. split; [reflexivity|].
    split; [reflexivity|]. split; [reflexivity|].
    rewrite !requests_of_app, Hreq, Hpage. unfold w0. cbn [events].
    rewrite requests_of_app. cbn. now rewrite app_nil_r, <- app_assoc.
Qed.

Lemma initialize_first_page_witness :
  exists w',
    initializeNews script_js Best net_stories ascending (fresh []) = (Ok tt, w') /\
    newsIds (user w') = ids7 /\
    newsPage (user w') = 1 /\
    requests_of (events w') = BEST_NEWS_API :: map ITEM_API [1; 2; 3; 4; 5; 6]%Z.
Proof.
  destruct (@initialize_first_page script_js Best net_stories ascending (fresh []) 200 ids7)
    as (w' & Hrun & Hids & Hpage & _ & _ & Hreq).
  - simpl; lia.
  - reflexivity.
  - lia.
  - reflexivity.
  - discriminate.
  - reflexivity.
  - exists w'. repeat split; assumption.
Defined.

(** ** The page as a whole *)

Lemma initializeNews_rejected cst feed net latency (w : World Controller)
    (status : nat) (ids : list Z) :
  0 < MAX_CONCURRENT_REQUESTS cst ->
  newsLoading (user w) = false ->
  200 <= status <= 299 ->
  listReply net (feed_api feed) = Reply status (Some ids) ->
  ids <> [] ->
  page_safe cst feed net (firstn (ITEMS_PER_PAGE cst) ids) = false ->
  exists w',
    initializeNews cst feed net latency w = (Throw TypeError, w') /\
    newsLoading (user w') = true /\
    newsPage (user w') = 0.
Proof.
  intros HK Hload [Hlo Hhi] Hreply Hne Hunsafe.
  assert (Hok : res_ok status = true).
  { unfold res_ok. apply andb_true_iff. split; now apply Nat.leb_le. }
  destruct (initializeNews_cases cst feed net latency w) as (ids' & Hids & Hinit).
  simpl in Hids. rewrite Hreply, (request_body_success _ _ Hok) in Hids.
  injection Hids as <-.
  destruct ids as [|id rest]; [congruence|].
  set (w0 := {| user := set_page 0 (set_ids (id :: rest) (user w));
                events := events w ++ [EvFetch (feed_api feed); EvSettled (feed_api feed)] |})
    in *.
  assert (Hpage : page_ids cst (user w0) = firstn (ITEMS_PER_PAGE cst) (id :: rest)).
  { unfold page_ids, slice. cbn [user w0 newsIds newsPage set_page set_ids Nat.mul Nat.add skipn].
    now rewrite Nat.sub_0_r. }
  destruct (@loadMore_rejected cst feed net latency w0 HK)
    as (w' & tr & Hrun & _ & Hcursor & Hflag & _).
  - exact Hload.
  - reflexivity.
  - now rewrite Hpage.
  - exists w'. rewrite Hinit. auto.
Qed.

(** X22: [init] attaches the two click handlers only after both
    [initialize...News] calls returned.  So when the first page of one feed
    holds a fetched item that passes the check and has no title, [init] is
    rejected, neither button gets its handler, that feed keeps its loading
    flag set, and a click on either button does nothing, also in the feed
    that loaded without a fault. *)
Theorem bad_first_page_disables_buttons cst net latency (app : App) (feed : Feed)
    (status : nat) (ids : list Z) :
  0 < MAX_CONCURRENT_REQUESTS cst ->
  listeners app = [] ->
  newsLoading (user (feed_world feed app)) = false ->
  200 <= status <= 299 ->
  listReply net (feed_api feed) = Reply status (Some ids) ->
  ids <> [] ->
  page_safe cst feed net (firstn (ITEMS_PER_PAGE cst) ids) = false ->
  fst (init cst net latency app) <> Ok tt /\
  listeners (snd (init cst net latency app)) = [] /\
  newsLoading (user (feed_world feed (snd (init cst net latency app)))) = true /\
  (forall f net' latency',
     click cst f net' latency' (snd (init cst net latency app))
     = (Ok tt, snd (init cst net latency app))).
Proof.
  intros HK Hnone Hload Hstatus Hreply Hne Hunsafe.
  destruct (@initializeNews_rejected cst feed net latency (feed_world feed app) status ids
              HK Hload Hstatus Hreply Hne Hunsafe) as (w' & Hrun & Hflag & _).
  assert (Hinit : fst (init cst net latency app) <> Ok tt /\
                  listeners (snd (init cst net latency app)) = [] /\
                  feed_world feed (snd (init cst net latency app)) = w').
  { unfold init. destruct feed; cbn [feed_world] in Hrun.
    - rewrite Hrun.
      destruct (initializeNews cst Latest net latency (latestNews app)) as [rl wl].
      cbn. repeat split; auto. discriminate.
    - rewrite Hrun.
      destruct (initializeNews cst Best net latency (bestNews app)) as [[[]|e|] wb];
        cbn; repeat split; auto; discriminate. }
  destruct Hinit as (Hfail & Hlisteners & Hworld).
  split; [exact Hfail|]. split; [exact Hlisteners|]. split; [now rewrite Hworld|].
  intros f net' latency'. unfold click. now rewrite Hlisteners.
Qed.

Lemma bad_first_page_disables_buttons_witness :
  fst (init script_js net_one_untitled ascending app0) = Throw TypeError /\
  listeners (snd (init script_js net_one_untitled ascending app0)) = [] /\
  click script_js Latest net_stories ascending
    (snd (init script_js net_one_untitled ascending app0))
  = (Ok tt, snd (init script_js net_one_untitled ascending app0)).
Proof.
  destruct (@bad_first_page_disables_buttons script_js net_one_untitled ascending app0 Best
              200 ids7) as (_ & Hlisteners & _ & Hclick).
  - simpl; lia.
  - reflexivity.
  - reflexivity.
  - lia.
  - reflexivity.
  - discriminate.
  - reflexivity.
  - split; [reflexivity|]. split; [exact Hlisteners|]. apply Hclick.
Defined.

(** X23: when the first page of each feed arrives and no item on it makes
    the render function throw, [init] returns, both handlers are attached,
    each feed holds its id list with the cursor at 1, and a click on a button
    is a call of that feed's [loadMore...News]. *)
Theorem init_attaches_handlers cst net latency (app : App)
    (statusB statusL : nat) (idsB idsL : list Z) :
  0 < MAX_CONCURRENT_REQUESTS cst ->
  listeners app = [] ->
  newsLoading (user (bestNews app)) = false ->
  newsLoading (user (latestNews app)) = false ->
  200 <= statusB <= 299 -> 200 <= statusL <= 299 ->
  listReply net BEST_NEWS_API = Reply statusB (Some idsB) ->
  listReply net LATEST_NEWS_API = Reply statusL (Some idsL) ->
  idsB <> [] -> idsL <> [] ->
  page_safe cst Best net (firstn (ITEMS_PER_PAGE cst) idsB) = true ->
  page_safe cst Latest net (firstn (ITEMS_PER_PAGE cst) idsL) = true ->
  exists app',
    init cst net latency app = (Ok tt, app') /\
    listeners app' = [Best; Latest] /\
    newsIds (user (bestNews app')) = idsB /\ newsPage (user (bestNews app')) = 1 /\
    newsIds (user (latestNews app')) = idsL /\ newsPage (user (latestNews app')) = 1 /\
    (forall net' latency',
       fst (click cst Best net' latency' app') = fst (loadMore cst Best net' latency' (bestNews app')) /\
       bestNews (snd (click cst Best net' latency' app'))
         = snd (loadMore cst Best net' latency' (bestNews app')) /\
       latestNews (snd (click cst Best net' latency' app')) = latestNews app' /\
       fst (click cst Latest net' latency' app')
         = fst (loadMore cst Latest net' latency' (latestNews app')) /\
       latestNews (snd (click cst Latest net' latency' app'))
         = snd (loadMore cst Latest net' latency' (latestNews app')) /\
       bestNews (snd (click cst Latest net' latency' app')) = bestNews app').
Proof.
  intros HK Hnone HloadB HloadL HsB HsL HreplyB HreplyL HneB HneL HsafeB HsafeL.
  destruct (@initialize_first_page_state cst Best net latency (bestNews app) statusB idsB
              HK HloadB HsB HreplyB HneB HsafeB) as (wb & HrunB & HidsB & HpageB).
  destruct (@initialize_first_page_state cst Latest net latency (latestNews app) statusL idsL
              HK HloadL HsL HreplyL HneL HsafeL) as (wl & HrunL & HidsL & HpageL).
  eexists. split.
  - unfold init. rewrite HrunB, HrunL. cbn. rewrite Hnone. reflexivity.
  - cbn [listeners bestNews latestNews].
    split; [reflexivity|]. split; [exact HidsB|]. split; [exact HpageB|].
    split; [exact HidsL|]. split; [exact HpageL|].
    intros net' latency'. unfold click. cbn [existsb listeners bestNews latestNews orb].
    destruct (loadMore cst Best net' latency' wb) as [rb wb'].
    destruct (loadMore cst Latest net' latency' wl) as [rl wl'].
    cbn. auto 7.
Qed.

Lemma init_attaches_handlers_witness :
  exists app',
    init script_js net_stories ascending app0 = (Ok tt, app') /\
    listeners app' = [Best; Latest] /\
    newsPage (user (bestNews app')) = 1 /\
    newsPage (user (bestNews (snd (click script_js Best net_stories ascending app')))) = 2.
Proof.
  destruct (@init_attaches_handlers script_js net_stories ascending app0 200 200 ids7 ids7)
    as (app' & Hrun & Hlisteners & _ & Hpage & _ & _ & Hclick);
    try reflexivity; try discriminate; try lia; try (simpl; lia).
  exists app'. split; [exact Hrun|]. split; [exact Hlisteners|]. split; [exact Hpage|].
  destruct (Hclick net_stories ascending) as (_ & Hbest & _).
  rewrite Hbest. vm_compute in Hrun. injection Hrun as <-. reflexivity.
Defined.
